(** * machanger.py: a shallow embedding and its specification

    The program reads, changes and restores the hardware address of a network
    interface by running [ifconfig], and keeps the first address it saw for
    each interface in a JSON file.  The embedding follows the source function
    by function.  Python values are a small inductive type, effects (external
    commands, the record file, the random source, console output and
    exceptions) are threaded through a state-and-exception monad over an
    explicit [world]. *)

From Stdlib Require Import ZArith String Ascii SpecFloat.
From stdpp Require Import gmap list.

Local Open Scope Z_scope.

(** ** Python strings and values *)

(** A Python [str] is a sequence of Unicode code points. *)
Abbreviation pystr := (list N).

(** The code points of an ASCII literal of the source. *)
Fixpoint lit (s : string) : pystr :=
  match s with
  | EmptyString => []
  | String a s' => N_of_ascii a :: lit s'
  end.

(** The values the program handles: what [json.load] can return, which is
    also what [args] and the reader produce ([str] and [None]).  A float is
    an IEEE binary64 number, a dict from JSON has [str] keys. *)
#[warnings="-register-all"]
Inductive pyval :=
| PyNone
| PyBool (b : bool)
| PyInt (z : Z)
| PyFloat (f : spec_float)
| PyStr (s : pystr)
| PyList (l : list pyval)
| PyDict (d : gmap pystr pyval).

(** Truth value of an object, as tested by [if x] and [not x]. *)
Definition truthy (v : pyval) : bool :=
  match v with
  | PyNone => false
  | PyBool b => b
  | PyInt z => negb (z =? 0)
  | PyFloat (S754_zero _) => false
  | PyFloat _ => true
  | PyStr s => negb (bool_decide (s = []))
  | PyList l => match l with [] => false | _ => true end
  | PyDict d => negb (bool_decide (d = ∅))
  end.

(** [x == v] where [x] is a [str]: only an equal [str] compares equal. *)
Definition str_eq (x : pystr) (v : pyval) : bool :=
  match v with
  | PyStr s => bool_decide (x = s)
  | _ => false
  end.

(** [a == b] where [a] is the reader's result, a [str] or [None]. *)
Definition mac_eq (a b : pyval) : bool :=
  match a with
  | PyStr s => str_eq s b
  | PyNone => match b with PyNone => true | _ => false end
  | _ => false
  end.

(** [x in s] for two [str]: [x] occurs in [s] as a substring. *)
Fixpoint starts_with (x s : pystr) : bool :=
  match x, s with
  | [], _ => true
  | a :: x', b :: s' => bool_decide (a = b) && starts_with x' s'
  | _ :: _, [] => false
  end.

Fixpoint substring (x s : pystr) : bool :=
  starts_with x s ||
  match s with
  | [] => false
  | _ :: s' => substring x s'
  end.

(** ** Canonical colon-hex form *)

Definition is_digit (c : N) : bool := ((48 <=? c) && (c <=? 57))%N.
Definition is_lower_hex (c : N) : bool :=
  is_digit c || ((97 <=? c) && (c <=? 102))%N.
Definition is_upper_hex (c : N) : bool := ((65 <=? c) && (c <=? 70))%N.
Definition colon : N := 58%N.

(** [^[0-9a-f]{2}$]: one group of two lowercase hex digits. *)
Definition hex_pair (g : pystr) : bool :=
  match g with
  | [a; b] => is_lower_hex a && is_lower_hex b
  | _ => false
  end.

(** [sep.join(parts)] *)
Fixpoint join (sep : pystr) (parts : list pystr) : pystr :=
  match parts with
  | [] => []
  | [p] => p
  | p :: rest => p ++ sep ++ join sep rest
  end.

(** A string is canonical when it is six lowercase two-hex-digit groups
    joined by colons, the strings of [^[0-9a-f]{2}(:[0-9a-f]{2}){5}$]. *)
Definition canonical (s : pystr) : Prop :=
  ∃ groups : list pystr,
    length groups = 6%nat ∧ forallb hex_pair groups = true ∧
    s = join [colon] groups.

(** The same, as a test on the seventeen characters. *)
Definition canonicalb (s : pystr) : bool :=
  match s with
  | [a0; a1; c1; b0; b1; c2; d0; d1; c3; e0; e1; c4; f0; f1; c5; g0; g1] =>
      forallb is_lower_hex [a0; a1; b0; b1; d0; d1; e0; e1; f0; f1; g0; g1]
      && forallb (λ c, bool_decide (c = colon)) [c1; c2; c3; c4; c5]
  | _ => false
  end.

(** Reading a canonical string back, character by character: the value of
    a lowercase hex digit, of a two-digit group, and the six bytes of a
    string of seventeen characters whose groups are separated by colons.
    These do not use the program's formatting. *)
Definition hex_value (c : N) : option Z :=
  if is_digit c then Some (Z.of_N c - 48)
  else if ((97 <=? c) && (c <=? 102))%N then Some (Z.of_N c - 87)
  else None.

Definition decode_pair (hi lo : N) : option Z :=
  match hex_value hi, hex_value lo with
  | Some h, Some l => Some (16 * h + l)
  | _, _ => None
  end.

Definition decode_mac (s : pystr) : option (list Z) :=
  match s with
  | [a0; a1; c1; b0; b1; c2; d0; d1; c3; e0; e1; c4; f0; f1; c5; g0; g1] =>
      if forallb (λ c, bool_decide (c = colon)) [c1; c2; c3; c4; c5] then
        match decode_pair a0 a1, decode_pair b0 b1, decode_pair d0 d1,
              decode_pair e0 e1, decode_pair f0 f1, decode_pair g0 g1 with
        | Some a, Some b, Some d, Some e, Some f, Some g =>
            Some [a; b; d; e; f; g]
        | _, _, _, _, _, _ => None
        end
      else None
  | _ => None
  end.

(** ** Formatting an integer as [f"{b:02x}"] *)

Definition hex_digit (d : Z) : N :=
  Z.to_N (if d <? 10 then 48 + d else 87 + d).

(** Lowercase hexadecimal digits of a non-negative integer, most significant
    first; [fuel] bounds the number of digits. *)
Fixpoint hex_digits (fuel : nat) (n : Z) (acc : pystr) : pystr :=
  match fuel with
  | O => acc
  | S fuel' =>
      let acc' := hex_digit (n mod 16) :: acc in
      if n / 16 =? 0 then acc' else hex_digits fuel' (n / 16) acc'
  end.

Definition hex (n : Z) : pystr :=
  hex_digits (S (Z.to_nat (Z.log2 n))) n [].

(** Sign-aware zero padding to [width] characters. *)
Definition zero_pad (width : nat) (negative : bool) (digits : pystr) : pystr :=
  let sign := if negative then lit "-" else [] in
  sign ++ replicate (width - length sign - length digits) 48%N ++ digits.

Definition format_02x (b : Z) : pystr :=
  zero_pad 2 (b <? 0) (hex (Z.abs b)).

(** ** The world the program runs in *)

(** Exceptions.  [SpawnError] stands for whatever [Popen] raises when the
    command cannot be started from well-typed arguments ([OSError] and its
    subclasses, [ValueError] for an embedded null character). *)
Inductive exn :=
| CalledProcessError
| SpawnError
| TypeError
| AttributeError
| UnicodeDecodeError
| FileNotFoundError
| JSONDecodeError.

(** Bytes captured from a command, seen through [.decode('utf-8')]. *)
Inductive captured :=
| Utf8 (text : pystr)
| NotUtf8.

(** What running a command gives: it ran and exited with a status, having
    printed [stdout], or it could not be started. *)
Inductive proc_result :=
| Exited (status : Z) (stdout : captured)
| NotStarted.

(** The external collaborator: an opaque machine state and the effect of
    running a command line on it. *)
Class Platform := {
  os_state : Type;
  exec : list pystr → os_state → proc_result * os_state
}.

(** The file at [CONFIG_FILE], seen through [os.path.exists] and
    [json.load]: it does not exist, it exists and [json.load] rejects it, or
    it exists and [json.load] returns [v].  [json.dump] of a value built from
    loaded values and strings leaves a document that loads back as that
    value. *)
Inductive file_content :=
| Absent
| Malformed
| Document (v : pyval).

(** One constructor per [print] of the source, carrying the values it
    interpolates. *)
Inductive message :=
| CouldNotRead (interface : pystr)
| IfconfigError (interface : pystr)
| Changing (interface : pystr) (new_mac : pyval)
| Changed (new_mac : pyval)
| FailedChange (new_mac : pyval)
| ErrorChanging (e : exn)
| Saved (interface : pystr) (mac : pyval)
| NoCurrent (interface : pystr)
| ShowCurrent (interface : pystr) (current_mac : pyval)
| ShowOriginal (interface : pystr) (original_mac : pyval)
| Restoring (interface : pystr).

(** Outcome of a computation: a value, or an exception in flight. *)
Inductive outcome (A : Type) :=
| Return (a : A)
| Raise (e : exn).
Arguments Return {A} a.
Arguments Raise {A} e.

(** Command-line arguments after [parser.parse_args()]. *)
Record Args := {
  interface : pystr;
  mac : option pystr;
  restore : bool;
  show : bool
}.

Definition of_option (o : option pystr) : pyval :=
  match o with
  | Some s => PyStr s
  | None => PyNone
  end.

(** Elements of an argument list must be [str]. *)
Fixpoint argv_of (args : list pyval) : option (list pystr) :=
  match args with
  | [] => Some []
  | PyStr s :: rest => cons s <$> argv_of rest
  | _ :: _ => None
  end.

(** ** The pattern of the reader

    [re.search(r'ether\s+([0-9a-fA-F:]{17})', text)] on a [str]: the leftmost
    position where the literal, then one or more whitespace characters, then
    seventeen characters of the class match; the result is group 1. *)

(** [\s] on a [str] pattern: the characters for which [str.isspace] holds. *)
Definition is_space (c : N) : bool :=
  (((9 <=? c) && (c <=? 13)) || ((28 <=? c) && (c <=? 32))
   || (c =? 0x85) || (c =? 0xA0) || (c =? 0x1680)
   || ((0x2000 <=? c) && (c <=? 0x200A))
   || (c =? 0x2028) || (c =? 0x2029) || (c =? 0x202F) || (c =? 0x205F)
   || (c =? 0x3000))%N.

(** The class [[0-9a-fA-F:]]. *)
Definition mac_char (c : N) : bool :=
  is_lower_hex c || is_upper_hex c || bool_decide (c = colon).

(** [([0-9a-fA-F:]{17})] at the start of [s]. *)
Definition match_group (s : pystr) : option pystr :=
  let g := take 17 s in
  if bool_decide (length g = 17%nat) && forallb mac_char g
  then Some g else None.

(** The rest of [\s+] and then the group, once one whitespace character is
    consumed: greedy, giving characters back when the group fails. *)
Fixpoint match_spaces (s : pystr) : option pystr :=
  match s with
  | c :: s' =>
      if is_space c then
        match match_spaces s' with
        | Some g => Some g
        | None => match_group s
        end
      else match_group s
  | [] => match_group s
  end.

(** The whole pattern anchored at the start of [s]. *)
Definition match_here (s : pystr) : option pystr :=
  if starts_with (lit "ether") s then
    match drop 5 s with
    | c :: s' => if is_space c then match_spaces s' else None
    | [] => None
    end
  else None.

Fixpoint re_search (s : pystr) : option pystr :=
  match match_here s with
  | Some g => Some g
  | None =>
      match s with
      | [] => None
      | _ :: s' => re_search s'
      end
  end.

(** ** Effects *)

Declare Scope py_scope.

Section Program.
Context {platform : Platform}.

(** Everything the program can observe or change. *)
Record world := World {
  nic : os_state;              (* what the external command acts on *)
  config_file : file_content;  (* the file at CONFIG_FILE *)
  entropy : nat → Z;           (* the random source *)
  drawn : nat;                 (* how many numbers were drawn from it *)
  console : list message;      (* printed so far, oldest first *)
  invoked : list (list pystr)  (* command lines run so far, oldest first *)
}.

(** A computation reads and changes the world and returns or raises. *)
Definition M (A : Type) : Type := world → outcome A * world.

Definition ret {A} (a : A) : M A := λ w, (Return a, w).

Definition raise {A} (e : exn) : M A := λ w, (Raise e, w).

Definition bind {A B} (m : M A) (k : A → M B) : M B :=
  λ w, match m w with
       | (Return a, w') => k a w'
       | (Raise e, w') => (Raise e, w')
       end.

(** [try: body  except <handles>: handler] *)
Definition try_except {A} (body : M A) (handles : exn → bool)
    (handler : exn → M A) : M A :=
  λ w, match body w with
       | (Raise e, w') => if handles e then handler e w' else (Raise e, w')
       | r => r
       end.

Notation "x <- m ;; k" := (bind m (λ x, k))
  (at level 20, m at level 99, k at level 200, only parsing) : py_scope.
Notation "m ;; k" := (bind m (λ _, k))
  (at level 100, k at level 200, only parsing, right associativity) : py_scope.
Local Open Scope py_scope.

Definition print (m : message) : M unit :=
  λ w, (Return tt,
        World (nic w) (config_file w) (entropy w) (drawn w)
              (console w ++ [m]) (invoked w)).

(** [random.randint(lo, hi)]: the next number of the source, in [lo..hi]. *)
Definition next_draw (lo hi : Z) (w : world) : Z :=
  lo + entropy w (drawn w) mod (hi - lo + 1).

Definition randint (lo hi : Z) : M Z :=
  λ w, (Return (next_draw lo hi w),
        World (nic w) (config_file w) (entropy w) (S (drawn w))
              (console w) (invoked w)).

(** Starting a child process on an argument list and waiting for it. *)
Definition popen (args : list pyval) : M (Z * captured) :=
  match argv_of args with
  | None => raise TypeError
  | Some argv =>
      λ w, let (r, s) := exec argv (nic w) in
           let w' := World s (config_file w) (entropy w) (drawn w)
                           (console w) (invoked w ++ [argv]) in
           match r with
           | Exited status out => (Return (status, out), w')
           | NotStarted => (Raise SpawnError, w')
           end
  end.

(** [subprocess.call(args)]: the exit status. *)
Definition subprocess_call (args : list pyval) : M Z :=
  r <- popen args ;; ret (fst r).

(** [subprocess.check_output(args)]: the output of a run that exits with 0. *)
Definition subprocess_check_output (args : list pyval) : M captured :=
  r <- popen args ;;
  if fst r =? 0 then ret (snd r) else raise CalledProcessError.

Definition decode_utf8 (b : captured) : M pystr :=
  match b with
  | Utf8 text => ret text
  | NotUtf8 => raise UnicodeDecodeError
  end.

Definition os_path_exists : M bool :=
  λ w, (Return (match config_file w with Absent => false | _ => true end), w).

(** [with open(CONFIG_FILE, 'r') as f: json.load(f)] *)
Definition json_load : M pyval :=
  λ w, match config_file w with
       | Absent => (Raise FileNotFoundError, w)
       | Malformed => (Raise JSONDecodeError, w)
       | Document v => (Return v, w)
       end.

(** [with open(CONFIG_FILE, 'w') as f: json.dump(config, f)] *)
Definition json_dump (config : pyval) : M unit :=
  λ w, (Return tt,
        World (nic w) (Document config) (entropy w) (drawn w)
              (console w) (invoked w)).

(** [interface in config] *)
Definition contains (config : pyval) (interface : pystr) : M bool :=
  match config with
  | PyDict d => ret (bool_decide (is_Some (d !! interface)))
  | PyList l => ret (existsb (str_eq interface) l)
  | PyStr s => ret (substring interface s)
  | _ => raise TypeError
  end.

(** [config[interface] = mac] *)
Definition setitem (config : pyval) (interface : pystr) (mac : pyval)
    : M pyval :=
  match config with
  | PyDict d => ret (PyDict (<[interface := mac]> d))
  | _ => raise TypeError
  end.

(** [config.get(interface)] *)
Definition dict_get (config : pyval) (interface : pystr) : M pyval :=
  match config with
  | PyDict d => ret (default PyNone (d !! interface))
  | _ => raise AttributeError
  end.

(** ** The program *)

Definition get_current_mac (interface : pystr) : M pyval :=
  try_except
    (out <- subprocess_check_output [PyStr (lit "ifconfig"); PyStr interface] ;;
     ifconfig_output <- decode_utf8 out ;;
     match re_search ifconfig_output with
     | Some group1 => ret (PyStr group1)
     | None => print (CouldNotRead interface) ;; ret PyNone
     end)
    (λ e, match e with CalledProcessError => true | _ => false end)
    (λ _, print (IfconfigError interface) ;; ret PyNone).

Definition set_mac_address (interface : pystr) (new_mac : pyval) : M bool :=
  print (Changing interface new_mac) ;;
  try_except
    (subprocess_call
       [PyStr (lit "ifconfig"); PyStr interface; PyStr (lit "down")] ;;
     subprocess_call
       [PyStr (lit "ifconfig"); PyStr interface; PyStr (lit "hw");
        PyStr (lit "ether"); new_mac] ;;
     subprocess_call
       [PyStr (lit "ifconfig"); PyStr interface; PyStr (lit "up")] ;;
     current_mac <- get_current_mac interface ;;
     if mac_eq current_mac new_mac
     then print (Changed new_mac) ;; ret true
     else print (FailedChange new_mac) ;; ret false)
    (λ _, true)
    (λ e, print (ErrorChanging e) ;; ret false).

Definition save_original_mac (interface : pystr) (mac : pyval) : M unit :=
  file_exists <- os_path_exists ;;
  config <- (if file_exists then json_load else ret (PyDict ∅)) ;;
  present <- contains config interface ;;
  config <- (if negb present
             then config' <- setitem config interface mac ;;
                  print (Saved interface mac) ;;
                  ret config'
             else ret config) ;;
  json_dump config.

Definition get_original_mac (interface : pystr) : M pyval :=
  file_exists <- os_path_exists ;;
  if file_exists
  then config <- json_load ;; dict_get config interface
  else ret PyNone.

(** [for _ in range(n): mac.append(random.randint(0, 255))] *)
Fixpoint append_random (n : nat) (mac : list Z) : M (list Z) :=
  match n with
  | O => ret mac
  | S n' => b <- randint 0 255 ;; append_random n' (mac ++ [b])
  end.

Definition format_mac (mac : list Z) : pystr :=
  join [colon] (format_02x <$> mac).

Definition generate_random_mac : M pyval :=
  r <- randint 0 255 ;;
  let first_byte := Z.lor (Z.land r 0xFE) 0x02 in
  mac <- append_random 5 [first_byte] ;;
  ret (PyStr (format_mac mac)).

Definition main (args : Args) : M unit :=
  current_mac <- get_current_mac (interface args) ;;
  if negb (truthy current_mac) then
    print (NoCurrent (interface args)) ;; ret tt
  else
    original_mac <- get_original_mac (interface args) ;;
    original_mac <- (if negb (truthy original_mac)
                     then save_original_mac (interface args) current_mac ;;
                          ret current_mac
                     else ret original_mac) ;;
    if show args then
      print (ShowCurrent (interface args) current_mac) ;;
      print (ShowOriginal (interface args) original_mac) ;;
      ret tt
    else if restore args then
      print (Restoring (interface args)) ;;
      set_mac_address (interface args) original_mac ;;
      ret tt
    else
      new_mac <- (if truthy (of_option (mac args))
                  then ret (of_option (mac args))
                  else generate_random_mac) ;;
      set_mac_address (interface args) new_mac ;;
      ret tt.

End Program.

(** ** Worlds and observations used in the statements *)

Section Observations.
Context {platform : Platform}.

(** What only the random source distinguishes. *)
Definition same_but_drawn (w w' : world) : Prop :=
  nic w' = nic w ∧ config_file w' = config_file w ∧
  entropy w' = entropy w ∧ console w' = console w ∧ invoked w' = invoked w.

Definition printed (m : message) (w : world) : world :=
  World (nic w) (config_file w) (entropy w) (drawn w)
        (console w ++ [m]) (invoked w).

(** The world once the record file holds [f]. *)
Definition wrote (f : file_content) (w : world) : world :=
  World (nic w) f (entropy w) (drawn w) (console w) (invoked w).

(** The world once [argv] has run. *)
Definition after_exec (argv : list pystr) (w : world) : world :=
  World (snd (exec argv (nic w))) (config_file w) (entropy w) (drawn w)
        (console w) (invoked w ++ [argv]).

(** The command line of the reader. *)
Definition show_command (interface : pystr) : list pystr :=
  [lit "ifconfig"; interface].

Definition down_command (interface : pystr) : list pystr :=
  [lit "ifconfig"; interface; lit "down"].

Definition hw_command (interface m : pystr) : list pystr :=
  [lit "ifconfig"; interface; lit "hw"; lit "ether"; m].

Definition up_command (interface : pystr) : list pystr :=
  [lit "ifconfig"; interface; lit "up"].

(** The worlds the writer goes through when every command starts. *)
Definition announced (interface : pystr) (new_mac : pyval) (w : world) :=
  printed (Changing interface new_mac) w.

Definition brought_down (interface : pystr) (new_mac : pyval) (w : world) :=
  after_exec (down_command interface) (announced interface new_mac w).

Definition address_set (interface m : pystr) (w : world) :=
  after_exec (hw_command interface m) (brought_down interface (PyStr m) w).

Definition brought_up (interface m : pystr) (w : world) :=
  after_exec (up_command interface) (address_set interface m w).

Definition starts (argv : list pystr) (w : world) : bool :=
  match fst (exec argv (nic w)) with
  | Exited _ _ => true
  | NotStarted => false
  end.

(** The entry of interface [j] in a record file that holds a mapping. *)
Definition stored (f : file_content) (j : pystr) : option pyval :=
  match f with
  | Document (PyDict d) => d !! j
  | _ => None
  end.

(** There is no file, or the file holds a mapping without an entry
    for [j]. *)
Definition no_entry (f : file_content) (j : pystr) : bool :=
  match f with
  | Absent => true
  | Document (PyDict d) => bool_decide (d !! j = None)
  | _ => false
  end.

End Observations.

(** ** An in-memory interface

    A small instance of [Platform], used to run the program on concrete
    inputs: one interface with a hardware address, which may refuse a new
    address and may print no [ether] line. *)
Record fake_nic := FakeNic {
  address : pystr;   (* the hardware address as the command prints it *)
  admin_up : bool;
  settable : bool;   (* "hw ether" takes effect *)
  reports : bool     (* show mode prints the ether line *)
}.

Definition fake_exec (argv : list pystr) (s : fake_nic)
    : proc_result * fake_nic :=
  match argv with
  | [_; _] =>
      if reports s
      then (Exited 0 (Utf8 (lit "eth0: flags=4163  mtu 1500 ether "
                             ++ address s ++ lit "  txqueuelen 1000")), s)
      else (Exited 0 (Utf8 (lit "eth0: flags=4163  mtu 1500")), s)
  | [_; _; a] =>
      if bool_decide (a = lit "down")
      then (Exited 0 (Utf8 []), FakeNic (address s) false (settable s) (reports s))
      else if bool_decide (a = lit "up")
      then (Exited 0 (Utf8 []), FakeNic (address s) true (settable s) (reports s))
      else (Exited 1 (Utf8 []), s)
  | [_; _; a; b; m] =>
      if bool_decide (a = lit "hw") && bool_decide (b = lit "ether")
         && settable s && negb (admin_up s)
      then (Exited 0 (Utf8 []), FakeNic m (admin_up s) (settable s) (reports s))
      else (Exited 1 (Utf8 []), s)
  | _ => (Exited 1 (Utf8 []), s)
  end.

Definition fake : Platform := {| os_state := fake_nic; exec := fake_exec |}.

(** A fresh run on the in-memory interface. *)
Definition fake_world (s : fake_nic) (f : file_content) : @world fake :=
  @World fake s f (λ n, Z.of_nat n * 37 + 5) 0%nat [] [].

Definition eth0 : pystr := lit "eth0".
Definition wlan0 : pystr := lit "wlan0".
Definition factory_mac : pystr := lit "00:11:22:33:44:55".
Definition chosen_mac : pystr := lit "02:aa:aa:aa:aa:aa".
Definition upper_mac : pystr := lit "AA:BB:CC:DD:EE:FF".

(** An interface that behaves, one that ignores a new address, one whose
    output has no [ether] line, and one that prints uppercase digits. *)
Definition plain_nic : fake_nic := FakeNic factory_mac true true true.
Definition fixed_nic : fake_nic := FakeNic chosen_mac true false true.
Definition silent_nic : fake_nic := FakeNic factory_mac true true false.
Definition upper_nic : fake_nic := FakeNic upper_mac true true true.

Definition show_restore_args : Args :=
  {| interface := eth0; mac := None; restore := true; show := true |}.
Definition set_args : Args :=
  {| interface := eth0; mac := Some chosen_mac; restore := false;
     show := false |}.

(** A record that already holds the factory address of [eth0]. *)
Definition recorded_world : @world fake :=
  fake_world plain_nic
    (Document (PyDict (<[eth0 := PyStr factory_mac]> ∅))).

(** Two more platforms for concrete runs: one whose command prints the
    machine state as it is, and one on which no command can be started. *)
Definition echo : Platform :=
  {| os_state := pystr; exec := λ _ text, (Exited 0 (Utf8 text), text) |}.

Definition no_command : Platform :=
  {| os_state := unit; exec := λ _ s, (NotStarted, s) |}.

Definition restore_args : Args :=
  {| interface := eth0; mac := None; restore := true; show := false |}.
Definition random_args : Args :=
  {| interface := eth0; mac := Some []; restore := false; show := false |}.

(** * Properties *)

(** ** Bytes and their two hex digits *)

(** A property checked on each of the 256 bytes holds of every byte. *)
Lemma byte_cases (P : Z → bool) :
  forallb P (seqZ 0 256) = true → ∀ b, 0 ≤ b ≤ 255 → P b = true.
Proof.
  intros Hall b Hb.
  rewrite forallb_forall in Hall. apply Hall.
  apply list_elem_of_In, elem_of_seqZ. lia.
Qed.

Lemma format_02x_byte (b : Z) : 0 ≤ b ≤ 255 → hex_pair (format_02x b) = true.
Proof. revert b. apply byte_cases. vm_compute. reflexivity. Qed.

Lemma first_byte_range (r : Z) :
  0 ≤ r ≤ 255 → 0 ≤ Z.lor (Z.land r 0xFE) 0x02 ≤ 255.
Proof.
  intros Hr.
  pose proof (byte_cases
    (λ r, (0 <=? Z.lor (Z.land r 0xFE) 0x02) && (Z.lor (Z.land r 0xFE) 0x02 <=? 255))
    ltac:(vm_compute; reflexivity) r Hr) as Hb.
  cbv beta in Hb. apply andb_prop in Hb as [H0 H255]. lia.
Qed.

(** The two forced bits, for any integer. *)
Lemma first_byte_bits (r : Z) :
  Z.testbit (Z.lor (Z.land r 0xFE) 0x02) 1 = true ∧
  Z.testbit (Z.lor (Z.land r 0xFE) 0x02) 0 = false.
Proof.
  rewrite !Z.lor_spec, !Z.land_spec. split.
  - apply orb_true_r.
  - change (Z.testbit 0xFE 0) with false. change (Z.testbit 0x02 0) with false.
    rewrite andb_false_r. reflexivity.
Qed.

Lemma canonicalb_canonical (s : pystr) : canonicalb s = true ↔ canonical s.
Proof.
  split.
  - intros Hs. unfold canonicalb in Hs.
    do 17 (destruct s as [|? s]; [discriminate Hs|]).
    destruct s; [|discriminate Hs].
    apply andb_prop in Hs as [Hhex Hcol]. simpl in Hhex, Hcol.
    repeat match goal with
           | H : _ && _ = true |- _ => apply andb_prop in H as [? ?]
           | H : bool_decide _ = true |- _ => apply bool_decide_eq_true in H; subst
           end.
    eexists [[_; _]; [_; _]; [_; _]; [_; _]; [_; _]; [_; _]].
    split; [reflexivity|]. split; [|reflexivity].
    simpl. repeat (apply andb_true_intro; split); assumption || reflexivity.
  - intros (groups & Hlen & Hall & ->).
    do 6 (destruct groups as [|? groups]; [discriminate Hlen|]).
    destruct groups; [|discriminate Hlen].
    simpl in Hall.
    repeat match goal with
           | H : _ && _ = true |- _ => apply andb_prop in H as [? ?]
           end.
    repeat match goal with
           | H : hex_pair ?g = true |- _ =>
               destruct g as [|? [|? [|? ?]]]; try discriminate H;
               simpl in H; apply andb_prop in H as [? ?]
           end.
    simpl. repeat (apply andb_true_intro; split); assumption || reflexivity.
Qed.

Section Properties.
Context {platform : Platform}.

(** ** The random generator *)

Lemma next_draw_byte (w : world) : 0 ≤ next_draw 0 255 w ≤ 255.
Proof.
  unfold next_draw.
  pose proof (Z.mod_pos_bound (entropy w (drawn w)) (255 - 0 + 1)). lia.
Qed.

Lemma append_random_spec (n : nat) (mac : list Z) (w : world) :
  ∃ rest w',
    append_random n mac w = (Return (mac ++ rest), w') ∧
    length rest = n ∧ Forall (λ b, 0 ≤ b ≤ 255) rest ∧ same_but_drawn w w'.
Proof.
  revert mac w. induction n as [|n IH]; intros mac w.
  - exists [], w. rewrite app_nil_r. repeat split; constructor.
  - destruct (IH (mac ++ [next_draw 0 255 w])
                 (World (nic w) (config_file w) (entropy w) (S (drawn w))
                        (console w) (invoked w)))
      as (rest & w' & Hrun & Hlen & Hall & Hsame).
    exists (next_draw 0 255 w :: rest), w'.
    split; [|split; [|split]].
    + cbn [append_random]. unfold bind, randint. rewrite Hrun.
      by rewrite <- app_assoc.
    + simpl. by rewrite Hlen.
    + constructor; [apply next_draw_byte | done].
    + exact Hsame.
Qed.

Lemma format_mac_canonical (mac : list Z) :
  length mac = 6%nat → Forall (λ b, 0 ≤ b ≤ 255) mac →
  canonical (format_mac mac).
Proof.
  intros Hlen Hall. exists (format_02x <$> mac).
  split; [by rewrite length_fmap|]. split; [|done].
  apply forallb_forall. intros g Hg.
  apply list_elem_of_In, list_elem_of_fmap in Hg as (b & -> & Hb).
  apply format_02x_byte. by eapply (proj1 (Forall_forall _ _) Hall).
Qed.

Lemma format_mac_first (b : Z) (rest : list Z) :
  0 ≤ b ≤ 255 → rest ≠ [] →
  take 2 (format_mac (b :: rest)) = format_02x b.
Proof.
  intros Hb Hrest. apply format_02x_byte in Hb.
  unfold format_mac. destruct rest as [|b' rest]; [done|].
  rewrite !fmap_cons. cbn [join].
  destruct (format_02x b) as [|x [|y [|z g]]]; try discriminate Hb.
  reflexivity.
Qed.

Lemma format_02x_decodes :
  forallb (λ b, match format_02x b with
                | [x; y] => bool_decide (decode_pair x y = Some b)
                | _ => false
                end) (seqZ 0 256) = true.
Proof. vm_compute. reflexivity. Qed.

Lemma format_02x_decode (b : Z) :
  0 ≤ b ≤ 255 → ∃ x y, format_02x b = [x; y] ∧ decode_pair x y = Some b.
Proof.
  intros Hb. pose proof (byte_cases _ format_02x_decodes b Hb) as Hd.
  cbv beta in Hd.
  destruct (format_02x b) as [|x [|y [|z g]]]; try discriminate Hd.
  exists x, y. split; [done|]. by apply bool_decide_eq_true in Hd.
Qed.

(** Read back from the string, six rendered bytes are the bytes. *)
Lemma format_mac_decode (mac : list Z) :
  length mac = 6%nat → Forall (λ b, 0 ≤ b ≤ 255) mac →
  decode_mac (format_mac mac) = Some mac.
Proof.
  intros Hlen Hall.
  do 6 (destruct mac as [|? mac]; [discriminate Hlen|]).
  destruct mac; [|discriminate Hlen].
  repeat match goal with
         | H : Forall _ (_ :: _) |- _ =>
             apply Forall_cons in H as [?%format_02x_decode ?]
         end.
  repeat match goal with
         | H : ∃ x y, format_02x _ = _ ∧ _ |- _ =>
             destruct H as (? & ? & ? & ?)
         end.
  unfold format_mac. rewrite !fmap_cons, fmap_nil. cbn [join].
  repeat match goal with
         | H : format_02x _ = _ |- _ => rewrite H; clear H
         end.
  cbn [app decode_mac forallb andb].
  rewrite bool_decide_eq_true_2 by done. cbn [andb].
  repeat match goal with
         | H : decode_pair _ _ = _ |- _ => rewrite H; clear H
         end.
  reflexivity.
Qed.

Lemma first_byte_digit_check :
  forallb (λ r, match format_02x (Z.lor (Z.land r 0xFE) 0x02) with
                | [_; y] => existsb (N.eqb y) (lit "26ae")
                | _ => false
                end) (seqZ 0 256) = true.
Proof. vm_compute. reflexivity. Qed.

(** The second hex digit of the first group shows the two forced bits: it
    is one of [2], [6], [a], [e]. *)
Lemma first_byte_digit (r : Z) (rest : list Z) :
  0 ≤ r ≤ 255 → rest ≠ [] →
  ∃ c, format_mac (Z.lor (Z.land r 0xFE) 0x02 :: rest) !! 1%nat = Some c ∧
       c ∈ lit "26ae".
Proof.
  intros Hr Hrest. pose proof (byte_cases _ first_byte_digit_check r Hr) as Hd.
  cbv beta in Hd. unfold format_mac. rewrite fmap_cons.
  destruct (format_02x _) as [|x [|y [|z g]]]; try discriminate Hd.
  exists y. split; [by destruct rest|].
  apply existsb_exists in Hd as (c & Hc & ->%N.eqb_eq).
  by apply list_elem_of_In.
Qed.

(** C1. Whatever the random source gives, [generate_random_mac] returns a
    string, the rendering of six bytes; the first byte is
    [(r & 0xFE) | 0x02] for the first number drawn [r], so its bit 1 is set
    and its bit 0 is cleared, the string starts with the two hex digits of
    that byte, and the string is six lowercase two-hex-digit groups joined
    by colons.  Read off the returned string itself: it passes the test of
    the canonical form on its seventeen characters, its six groups read
    back as exactly those bytes (the first one with bit 1 set and bit 0
    clear), and its second character is one of [2], [6], [a], [e]. *)
Theorem generate_random_mac_spec (w : world) :
  let r := next_draw 0 255 w in
  let first_byte := Z.lor (Z.land r 0xFE) 0x02 in
  ∃ (rest : list Z) (w' : world) (s : pystr),
    fst (randint 0 255 w) = Return r ∧ 0 ≤ r ≤ 255 ∧
    generate_random_mac w = (Return (PyStr s), w') ∧
    s = format_mac (first_byte :: rest) ∧
    length rest = 5%nat ∧ Forall (λ b, 0 ≤ b ≤ 255) rest ∧
    Z.testbit first_byte 1 = true ∧ Z.testbit first_byte 0 = false ∧
    take 2 s = format_02x first_byte ∧
    canonical s ∧
    canonicalb s = true ∧
    decode_mac s = Some (first_byte :: rest) ∧
    (∃ c, s !! 1%nat = Some c ∧ c ∈ lit "26ae").
Proof.
  intros r first_byte.
  pose proof (next_draw_byte w) as Hr. fold r in Hr.
  pose proof (first_byte_range r Hr) as Hfb. fold first_byte in Hfb.
  destruct (append_random_spec 5 [first_byte]
              (World (nic w) (config_file w) (entropy w) (S (drawn w))
                     (console w) (invoked w)))
    as (rest & w' & Hrun & Hlen & Hall & _).
  assert (canonical (format_mac (first_byte :: rest))) as Hcanon.
  { apply format_mac_canonical; [simpl; by rewrite Hlen|]. by constructor. }
  exists rest, w', (format_mac (first_byte :: rest)).
  split; [done|]. split; [done|]. split.
  { unfold generate_random_mac, bind, randint. fold r. fold first_byte.
    by rewrite Hrun. }
  split; [done|]. split; [done|]. split; [done|].
  destruct (first_byte_bits r) as [Hb1 Hb0].
  split; [done|]. split; [done|]. split.
  { apply format_mac_first; [done|]. by destruct rest. }
  split; [done|]. split; [by apply canonicalb_canonical|]. split.
  - apply format_mac_decode; [simpl; by rewrite Hlen|]. by constructor.
  - apply first_byte_digit; [done|]. by destruct rest.
Qed.

(** ** The reader *)

Lemma match_group_class (s g : pystr) :
  match_group s = Some g → length g = 17%nat ∧ forallb mac_char g = true.
Proof.
  unfold match_group. intros Hm.
  destruct (bool_decide (length (take 17 s) = 17%nat)) eqn:Hlen; [|done].
  destruct (forallb mac_char (take 17 s)) eqn:Hall; [|done].
  simpl in Hm. injection Hm as <-.
  by apply bool_decide_eq_true in Hlen.
Qed.

Lemma match_spaces_class (s g : pystr) :
  match_spaces s = Some g → length g = 17%nat ∧ forallb mac_char g = true.
Proof.
  induction s as [|c s IH]; simpl.
  - apply match_group_class.
  - destruct (is_space c); [|apply match_group_class].
    destruct (match_spaces s) as [g'|].
    + intros [= ->]. by apply IH.
    + apply match_group_class.
Qed.

Lemma match_here_class (s g : pystr) :
  match_here s = Some g → length g = 17%nat ∧ forallb mac_char g = true.
Proof.
  unfold match_here. destruct (starts_with _ s); [|done].
  destruct (drop 5 s) as [|c s']; [done|].
  destruct (is_space c); [|done]. apply match_spaces_class.
Qed.

Lemma re_search_class (s g : pystr) :
  re_search s = Some g → length g = 17%nat ∧ forallb mac_char g = true.
Proof.
  induction s as [|c s IH]; cbn [re_search].
  - destruct (match_here []) eqn:Hm; [|done].
    intros [= ->]. by apply match_here_class in Hm.
  - destruct (match_here (c :: s)) eqn:Hm; [|done].
    intros [= ->]. by apply match_here_class in Hm.
Qed.

(** The reader, case by case on what the command does. *)
Lemma get_current_mac_eq (interface : pystr) (w : world) :
  let w1 := after_exec (show_command interface) w in
  get_current_mac interface w =
    match fst (exec (show_command interface) (nic w)) with
    | NotStarted => (Raise SpawnError, w1)
    | Exited status out =>
        if status =? 0 then
          match out with
          | NotUtf8 => (Raise UnicodeDecodeError, w1)
          | Utf8 text =>
              match re_search text with
              | Some group1 => (Return (PyStr group1), w1)
              | None => (Return PyNone, printed (CouldNotRead interface) w1)
              end
          end
        else (Return PyNone, printed (IfconfigError interface) w1)
    end.
Proof.
  unfold get_current_mac, try_except, subprocess_check_output, bind, popen,
    after_exec, show_command.
  cbn [argv_of fmap option_fmap option_map].
  destruct (exec _ (nic w)) as [[status out|] s]; cbn [fst snd];
    [|reflexivity].
  destruct (status =? 0); [|reflexivity].
  destruct out as [text|]; [|reflexivity].
  cbv [decode_utf8 ret]. cbn beta iota.
  destruct (re_search text); reflexivity.
Qed.
(** C8, as the code has it.  A string returned by the reader is group 1 of
    the leftmost match of the pattern in the text the command printed: it has
    seventeen characters, each of them a hex digit of either case or a
    colon.  Neither lowercase nor the grouping in pairs is enforced. *)
Theorem get_current_mac_class (interface : pystr) (w w' : world) (g : pystr) :
  get_current_mac interface w = (Return (PyStr g), w') →
  (∃ status text,
      fst (exec (show_command interface) (nic w)) = Exited status (Utf8 text) ∧
      status = 0 ∧ re_search text = Some g) ∧
  length g = 17%nat ∧ forallb mac_char g = true.
Proof.
  rewrite get_current_mac_eq. cbv zeta.
  destruct (fst (exec _ (nic w))) as [status [text|]|]; [| |done].
  - destruct (status =? 0) eqn:Hst; [|done].
    destruct (re_search text) as [g'|] eqn:Hre; [|done].
    intros [= -> _]. split; [|by apply re_search_class in Hre].
    exists status, text. apply Z.eqb_eq in Hst. done.
  - by destruct (status =? 0).
Qed.

(** ** The writer *)

Lemma argv_of_str (argv : list pystr) : argv_of (PyStr <$> argv) = Some argv.
Proof.
  induction argv as [|a argv IH]; [done|].
  rewrite fmap_cons. cbn [argv_of]. by rewrite IH.
Qed.

Lemma subprocess_call_eq (argv : list pystr) (w : world) :
  subprocess_call (PyStr <$> argv) w =
    match fst (exec argv (nic w)) with
    | Exited status _ => (Return status, after_exec argv w)
    | NotStarted => (Raise SpawnError, after_exec argv w)
    end.
Proof.
  unfold subprocess_call, bind, popen, after_exec. rewrite argv_of_str.
  by destruct (exec argv (nic w)) as [[status out|] s].
Qed.

(** An argument that is not a [str] stops the call before anything runs. *)
Lemma subprocess_call_not_str (pre : list pystr) (v : pyval) (w : world) :
  (∀ m, v ≠ PyStr m) →
  subprocess_call ((PyStr <$> pre) ++ [v]) w = (Raise TypeError, w).
Proof.
  intros Hv.
  assert (argv_of ((PyStr <$> pre) ++ [v]) = None) as Hargv.
  { induction pre as [|a pre IH].
    - destruct v; try done. by destruct (Hv s).
    - rewrite fmap_cons. cbn [app argv_of]. by rewrite IH. }
  unfold subprocess_call, bind, popen. by rewrite Hargv.
Qed.

(** The writer on a [str] target, step by step. *)
Lemma set_mac_address_eq (interface m : pystr) (w : world) :
  set_mac_address interface (PyStr m) w =
    let failed e w' := (Return false, printed (ErrorChanging e) w') in
    if negb (starts (down_command interface)
                    (announced interface (PyStr m) w))
    then failed SpawnError (brought_down interface (PyStr m) w)
    else if negb (starts (hw_command interface m)
                         (brought_down interface (PyStr m) w))
    then failed SpawnError (address_set interface m w)
    else if negb (starts (up_command interface) (address_set interface m w))
    then failed SpawnError (brought_up interface m w)
    else
      match get_current_mac interface (brought_up interface m w) with
      | (Return current_mac, w') =>
          if mac_eq current_mac (PyStr m)
          then (Return true, printed (Changed (PyStr m)) w')
          else (Return false, printed (FailedChange (PyStr m)) w')
      | (Raise e, w') => failed e w'
      end.
Proof.
  unfold set_mac_address, try_except, starts, brought_up, address_set,
    brought_down, announced.
  unfold bind at 1. unfold print at 1. fold (printed (Changing interface (PyStr m)) w).
  set (w0 := printed _ w).
  change [PyStr (lit "ifconfig"); PyStr interface; PyStr (lit "down")]
    with (PyStr <$> down_command interface).
  change [PyStr (lit "ifconfig"); PyStr interface; PyStr (lit "hw");
          PyStr (lit "ether"); PyStr m]
    with (PyStr <$> hw_command interface m).
  change [PyStr (lit "ifconfig"); PyStr interface; PyStr (lit "up")]
    with (PyStr <$> up_command interface).
  unfold bind at 1. rewrite subprocess_call_eq.
  destruct (fst (exec (down_command interface) (nic w0))); [|reflexivity].
  cbn [negb]. cbv iota.
  unfold bind at 1. rewrite subprocess_call_eq.
  destruct (fst (exec (hw_command interface m) _)); [|reflexivity].
  cbn [negb]. cbv iota.
  unfold bind at 1. rewrite subprocess_call_eq.
  destruct (fst (exec (up_command interface) _)); [|reflexivity].
  cbn [negb]. cbv iota.
  unfold bind at 1.
  destruct (get_current_mac interface _) as [[current_mac|e] w']; [|reflexivity].
  destruct (mac_eq current_mac (PyStr m)); reflexivity.
Qed.
(** A target that is not a [str] makes the second command raise
    [TypeError] before it runs; the handler reports failure. *)
Lemma set_mac_address_not_str (interface : pystr) (v : pyval) (w : world) :
  (∀ m, v ≠ PyStr m) →
  set_mac_address interface v w =
    (Return false,
     printed (ErrorChanging
                (if starts (down_command interface) (announced interface v w)
                 then TypeError else SpawnError))
             (brought_down interface v w)).
Proof.
  intros Hv.
  unfold set_mac_address, try_except, starts, brought_down, announced.
  unfold bind at 1. unfold print at 1. fold (printed (Changing interface v) w).
  set (w0 := printed _ w).
  change [PyStr (lit "ifconfig"); PyStr interface; PyStr (lit "down")]
    with (PyStr <$> down_command interface).
  change [PyStr (lit "ifconfig"); PyStr interface; PyStr (lit "hw");
          PyStr (lit "ether"); v]
    with ((PyStr <$> [lit "ifconfig"; interface; lit "hw"; lit "ether"]) ++ [v]).
  unfold bind at 1. rewrite subprocess_call_eq.
  destruct (fst (exec (down_command interface) (nic w0))); [|reflexivity].
  unfold bind at 1. by rewrite subprocess_call_not_str.
Qed.

Lemma mac_eq_str (v : pyval) (m : pystr) :
  mac_eq v (PyStr m) = true ↔ v = PyStr m.
Proof.
  destruct v; simpl; try (split; discriminate).
  rewrite bool_decide_eq_true. split; congruence.
Qed.

(** C2. The writer always returns, and it returns [True] exactly when the
    target is a string, each of the three commands could be started
    (whatever status it exited with: [starts] does not look at it), and the
    verification read returned a string equal to the target. *)
Theorem set_mac_address_success (interface : pystr) (new_mac : pyval)
    (w : world) :
  ∃ (b : bool) (w' : world),
    set_mac_address interface new_mac w = (Return b, w') ∧
    (b = true ↔
     ∃ m, new_mac = PyStr m ∧
       starts (down_command interface) (announced interface new_mac w) = true ∧
       starts (hw_command interface m) (brought_down interface new_mac w) = true ∧
       starts (up_command interface) (address_set interface m w) = true ∧
       fst (get_current_mac interface (brought_up interface m w))
         = Return (PyStr m)).
Proof.
  assert ((∃ m, new_mac = PyStr m) ∨ (∀ m, new_mac ≠ PyStr m))
    as [[m ->]|Hns] by (destruct new_mac; eauto).
  - rewrite set_mac_address_eq. cbv zeta.
    destruct (starts (down_command interface) _) eqn:H1; cbn [negb].
    2:{ eexists _, _. split; [reflexivity|]. split; [done|].
        intros (m' & [= <-] & ? & _). congruence. }
    destruct (starts (hw_command interface m) _) eqn:H2; cbn [negb].
    2:{ eexists _, _. split; [reflexivity|]. split; [done|].
        intros (m' & [= <-] & _ & ? & _). congruence. }
    destruct (starts (up_command interface) _) eqn:H3; cbn [negb].
    2:{ eexists _, _. split; [reflexivity|]. split; [done|].
        intros (m' & [= <-] & _ & _ & ? & _). congruence. }
    destruct (get_current_mac interface _) as [[cur|e] w'] eqn:Hread.
    + destruct (mac_eq cur (PyStr m)) eqn:Heq.
      * eexists _, _. split; [reflexivity|]. split; [|done].
        intros _. exists m. apply mac_eq_str in Heq as ->.
        rewrite Hread. done.
      * eexists _, _. split; [reflexivity|]. split; [done|].
        intros (m' & [= <-] & _ & _ & _ & Hr). rewrite Hread in Hr.
        injection Hr as ->. by rewrite (proj2 (mac_eq_str _ _) eq_refl) in Heq.
    + eexists _, _. split; [reflexivity|]. split; [done|].
      intros (m' & [= <-] & _ & _ & _ & Hr). by rewrite Hread in Hr.
  - rewrite set_mac_address_not_str by done.
    eexists _, _. split; [reflexivity|]. split; [done|].
    intros (m & -> & _). by destruct (Hns m).
Qed.

(** The exit status of a command that ran plays no part in [starts]. *)
Lemma starts_any_status (argv : list pystr) (w : world) (status : Z)
    (out : captured) :
  fst (exec argv (nic w)) = Exited status out → starts argv w = true.
Proof. unfold starts. by intros ->. Qed.

(** C9. When the three commands were started and the verification read
    returns [None], the writer returns [False] and prints the message of a
    mismatch, whatever the commands did to the interface. *)
Theorem set_mac_address_unreadable (interface m : pystr) (w w' : world) :
  starts (down_command interface) (announced interface (PyStr m) w) = true →
  starts (hw_command interface m) (brought_down interface (PyStr m) w) = true →
  starts (up_command interface) (address_set interface m w) = true →
  get_current_mac interface (brought_up interface m w) = (Return PyNone, w') →
  set_mac_address interface (PyStr m) w
    = (Return false, printed (FailedChange (PyStr m)) w').
Proof.
  intros H1 H2 H3 Hread. rewrite set_mac_address_eq. cbv zeta.
  rewrite H1, H2, H3, Hread. reflexivity.
Qed.
(** ** The original-address store *)

Lemma get_original_mac_eq (interface : pystr) (w : world) :
  get_original_mac interface w =
    match config_file w with
    | Absent => (Return PyNone, w)
    | Malformed => (Raise JSONDecodeError, w)
    | Document (PyDict d) => (Return (default PyNone (d !! interface)), w)
    | Document _ => (Raise AttributeError, w)
    end.
Proof.
  destruct w as [s f e n c i]. cbn [config_file].
  destruct f as [| |v]; try reflexivity.
  by destruct v.
Qed.

Lemma save_original_mac_eq (interface : pystr) (mac : pyval) (w : world) :
  save_original_mac interface mac w =
    match config_file w with
    | Absent =>
        (Return tt,
         wrote (Document (PyDict (<[interface := mac]> ∅)))
               (printed (Saved interface mac) w))
    | Malformed => (Raise JSONDecodeError, w)
    | Document (PyDict d) =>
        if bool_decide (is_Some (d !! interface))
        then (Return tt, wrote (Document (PyDict d)) w)
        else (Return tt,
              wrote (Document (PyDict (<[interface := mac]> d)))
                    (printed (Saved interface mac) w))
    | Document (PyList l) =>
        if existsb (str_eq interface) l
        then (Return tt, wrote (Document (PyList l)) w)
        else (Raise TypeError, w)
    | Document (PyStr s) =>
        if substring interface s
        then (Return tt, wrote (Document (PyStr s)) w)
        else (Raise TypeError, w)
    | Document _ => (Raise TypeError, w)
    end.
Proof.
  destruct w as [s f e n c i]. cbn [config_file].
  destruct f as [| |v]; [| reflexivity |].
  - cbv [save_original_mac bind os_path_exists ret contains config_file].
    rewrite lookup_empty.
    rewrite (bool_decide_eq_false_2 (is_Some None)) by (by intros [? ?]).
    reflexivity.
  - destruct v as [| | | |t|l|d]; try reflexivity.
    + cbv [save_original_mac bind os_path_exists json_load ret contains
           config_file].
      by destruct (substring interface t).
    + cbv [save_original_mac bind os_path_exists json_load ret contains
           config_file].
      by destruct (existsb (str_eq interface) l).
    + cbv [save_original_mac bind os_path_exists json_load ret contains
           config_file].
      by destruct (bool_decide (is_Some (d !! interface))).
Qed.

Lemma wrote_same (w : world) : wrote (config_file w) w = w.
Proof. by destruct w. Qed.

(** C3. When the record already holds an entry for the interface, [save]
    with any value returns normally and leaves the record file as it was, so
    the entry keeps its value; and starting from a record with no entry for
    the interface, two saves for it leave the entry equal to the first value
    written. *)
Theorem save_original_mac_first_write_wins (interface : pystr)
    (mac : pyval) (w : world) :
  (∀ v, stored (config_file w) interface = Some v →
     save_original_mac interface mac w = (Return tt, w) ∧
     stored (config_file (snd (save_original_mac interface mac w))) interface
       = Some v) ∧
  (∀ mac2, no_entry (config_file w) interface = true →
     ∃ w1 w2,
       save_original_mac interface mac w = (Return tt, w1) ∧
       save_original_mac interface mac2 w1 = (Return tt, w2) ∧
       stored (config_file w1) interface = Some mac ∧
       stored (config_file w2) interface = Some mac).
Proof.
  split.
  - intros v Hv. rewrite save_original_mac_eq.
    destruct (config_file w) as [| |c] eqn:Hfile; try discriminate Hv.
    destruct c as [| | | | | |d]; try discriminate Hv. simpl in Hv.
    rewrite bool_decide_eq_true_2 by eauto.
    rewrite <- Hfile, wrote_same. simpl. rewrite Hfile. done.
  - intros mac2 Hfresh.
    assert (∃ d, d !! interface = None ∧
              save_original_mac interface mac w =
                (Return tt,
                 wrote (Document (PyDict (<[interface := mac]> d)))
                       (printed (Saved interface mac) w)))
      as (d & Hd & Hfirst).
    { rewrite save_original_mac_eq.
      destruct (config_file w) as [| |c]; try discriminate Hfresh.
      - exists ∅. by rewrite lookup_empty.
      - destruct c as [| | | | | |d]; try discriminate Hfresh.
        simpl in Hfresh. apply bool_decide_eq_true in Hfresh.
        exists d. split; [done|].
        rewrite bool_decide_eq_false_2; [done|].
        rewrite Hfresh. by intros [? ?]. }
    eexists _, _. split; [exact Hfirst|].
    rewrite save_original_mac_eq. cbn [wrote config_file].
    rewrite bool_decide_eq_true_2 by (rewrite lookup_insert_eq; eauto).
    split; [reflexivity|]. cbn [wrote config_file stored].
    by rewrite lookup_insert_eq.
Qed.
(** C4. When there is no record file, or the record holds no entry for the
    interface, [get] returns [None]; and [save] then stores the value, so
    that [get] after it returns exactly that value. *)
Theorem save_then_get (interface : pystr) (mac : pyval) (w : world) :
  no_entry (config_file w) interface = true →
  get_original_mac interface w = (Return PyNone, w) ∧
  ∃ w1,
    save_original_mac interface mac w = (Return tt, w1) ∧
    get_original_mac interface w1 = (Return mac, w1).
Proof.
  intros Hfresh. rewrite get_original_mac_eq, save_original_mac_eq.
  destruct (config_file w) as [| |c]; try discriminate Hfresh.
  - split; [done|]. eexists. split; [reflexivity|].
    rewrite get_original_mac_eq. cbn [wrote config_file].
    by rewrite lookup_insert_eq.
  - destruct c as [| | | | | |d]; try discriminate Hfresh.
    simpl in Hfresh. apply bool_decide_eq_true in Hfresh.
    rewrite Hfresh. split; [done|].
    rewrite bool_decide_eq_false_2 by (by intros [? ?]).
    eexists. split; [reflexivity|].
    rewrite get_original_mac_eq. cbn [wrote config_file].
    by rewrite lookup_insert_eq.
Qed.

(** C10. Whatever the record file holds and whether [save] returns or
    raises, the entry of every other interface is afterwards what it was
    before, and so is what [get] gives for it. *)
Theorem save_original_mac_frame (interface j : pystr) (mac : pyval)
    (w : world) :
  j ≠ interface →
  let w' := snd (save_original_mac interface mac w) in
  stored (config_file w') j = stored (config_file w) j ∧
  fst (get_original_mac j w') = fst (get_original_mac j w).
Proof.
  intros Hj w'. subst w'.
  rewrite save_original_mac_eq, !get_original_mac_eq.
  destruct (config_file w) as [| |c] eqn:Hfile; cbn [snd].
  - cbn [wrote config_file stored].
    rewrite lookup_insert_ne by done. by rewrite lookup_empty.
  - by rewrite Hfile.
  - destruct c as [| | | |t|l|d]; cbn [snd]; rewrite ?Hfile; try done.
    + by destruct (substring interface t); cbn [snd]; rewrite ?Hfile.
    + by destruct (existsb (str_eq interface) l); cbn [snd]; rewrite ?Hfile.
    + destruct (bool_decide (is_Some (d !! interface)));
        cbn [snd wrote config_file stored]; [done|].
      by rewrite lookup_insert_ne.
Qed.

(** ** The entry flow *)

(** The reader leaves the record file and the random source alone and runs
    exactly one command, in show mode. *)
Lemma get_current_mac_frame (interface : pystr) (w : world) :
  let w' := snd (get_current_mac interface w) in
  config_file w' = config_file w ∧
  invoked w' = invoked w ++ [show_command interface] ∧
  nic w' = snd (exec (show_command interface) (nic w)).
Proof.
  rewrite get_current_mac_eq. cbv zeta.
  destruct (fst (exec _ (nic w))) as [status [text|]|]; [| |done].
  - destruct (status =? 0); [|done]. by destruct (re_search text).
  - by destruct (status =? 0).
Qed.

(** C5. When the record file exists and is not valid JSON, [save] and [get]
    raise the parse error without touching anything, and so does every run
    of [main] whose initial read gave an address: the exception leaves
    [main], nothing more is printed and no further command is run. *)
Theorem malformed_record_is_fatal (w : world) :
  config_file w = Malformed →
  (∀ interface mac,
     save_original_mac interface mac w = (Raise JSONDecodeError, w)) ∧
  (∀ interface,
     get_original_mac interface w = (Raise JSONDecodeError, w)) ∧
  (∀ args current_mac w1,
     get_current_mac (interface args) w = (Return current_mac, w1) →
     truthy current_mac = true →
     main args w = (Raise JSONDecodeError, w1)).
Proof.
  intros Hfile. split; [|split].
  - intros. by rewrite save_original_mac_eq, Hfile.
  - intros. by rewrite get_original_mac_eq, Hfile.
  - intros args current_mac w1 Hread Htrue.
    pose proof (get_current_mac_frame (interface args) w) as [Hcfg _].
    rewrite Hread in Hcfg. cbn [snd] in Hcfg.
    unfold main. unfold bind at 1. rewrite Hread, Htrue. cbn [negb].
    unfold bind at 1. by rewrite get_original_mac_eq, Hcfg, Hfile.
Qed.
(** C6. When the initial read returns [None], [main] prints its error
    message and returns: the record file is as before the run, and the only
    command that was run is the reader's, so the writer was not called. *)
Theorem main_unreadable (args : Args) (w w1 : world) :
  get_current_mac (interface args) w = (Return PyNone, w1) →
  main args w = (Return tt, printed (NoCurrent (interface args)) w1) ∧
  config_file (snd (main args w)) = config_file w ∧
  invoked (snd (main args w)) = invoked w ++ [show_command (interface args)].
Proof.
  intros Hread.
  assert (main args w = (Return tt, printed (NoCurrent (interface args)) w1))
    as Hmain.
  { unfold main. unfold bind at 1. by rewrite Hread. }
  pose proof (get_current_mac_frame (interface args) w) as (Hcfg & Hinv & _).
  rewrite Hread in Hcfg, Hinv. cbn [snd] in Hcfg, Hinv.
  rewrite Hmain. done.
Qed.

(** The store does not run commands. *)
Lemma get_original_mac_world (interface : pystr) (w : world) :
  snd (get_original_mac interface w) = w.
Proof.
  rewrite get_original_mac_eq.
  destruct (config_file w) as [| |c]; try done. by destruct c.
Qed.

Lemma save_original_mac_frame_os (interface : pystr) (mac : pyval)
    (w : world) :
  let w' := snd (save_original_mac interface mac w) in
  nic w' = nic w ∧ invoked w' = invoked w.
Proof.
  rewrite save_original_mac_eq. cbv zeta.
  destruct (config_file w) as [| |c]; try done.
  destruct c as [| | | |t|l|d]; try done.
  - by destruct (substring interface t).
  - by destruct (existsb (str_eq interface) l).
  - by destruct (bool_decide (is_Some (d !! interface))).
Qed.

(** [main] with [--show], step by step; [--mac] and [--restore] do not
    occur in it. *)
Lemma main_show_eq (iface : pystr) (m : option pystr) (r : bool)
    (w : world) :
  main {| interface := iface; mac := m; restore := r; show := true |} w =
    match get_current_mac iface w with
    | (Raise e, w1) => (Raise e, w1)
    | (Return current_mac, w1) =>
        if negb (truthy current_mac)
        then (Return tt, printed (NoCurrent iface) w1)
        else
          match get_original_mac iface w1 with
          | (Raise e, w2) => (Raise e, w2)
          | (Return original_mac, w2) =>
              if negb (truthy original_mac) then
                match save_original_mac iface current_mac w2 with
                | (Raise e, w3) => (Raise e, w3)
                | (Return _, w3) =>
                    (Return tt,
                     printed (ShowOriginal iface current_mac)
                       (printed (ShowCurrent iface current_mac) w3))
                end
              else
                (Return tt,
                 printed (ShowOriginal iface original_mac)
                   (printed (ShowCurrent iface current_mac) w2))
          end
    end.
Proof.
  unfold main. cbn [interface show].
  unfold bind at 1.
  destruct (get_current_mac iface w) as [[current_mac|e] w1];
    [|reflexivity].
  destruct (truthy current_mac); cbn [negb]; [|reflexivity].
  unfold bind at 1.
  destruct (get_original_mac iface w1) as [[original_mac|e] w2];
    [|reflexivity].
  unfold bind at 1.
  destruct (truthy original_mac); cbn [negb]; [reflexivity|].
  unfold bind at 1.
  destruct (save_original_mac iface current_mac w2) as [[[]|e] w3];
    reflexivity.
Qed.
(** Where [get] returns, the record is absent or a mapping, and [save]
    returns too. *)
Lemma save_returns_after_get (interface : pystr) (mac o : pyval)
    (w : world) :
  fst (get_original_mac interface w) = Return o →
  ∃ w', save_original_mac interface mac w = (Return tt, w').
Proof.
  rewrite get_original_mac_eq, save_original_mac_eq.
  destruct (config_file w) as [| |c]; [eauto|done|].
  destruct c as [| | | | | |d]; try done.
  intros _. destruct (bool_decide (is_Some (d !! interface))); eauto.
Qed.

(** C7. With [--show], whatever [--restore] and [--mac] are: the run is the
    one of [--show] alone; the only command run is the reader's, so the
    writer is not called and the interface is touched by that read only; and
    when the initial read gives an address and the record can be looked up,
    the run ends by printing the current address and the original one (the
    recorded one, or the current one when none is recorded). *)
Theorem main_show (args : Args) (w : world) :
  show args = true →
  main args w
    = main {| interface := interface args; mac := None;
              restore := false; show := true |} w ∧
  invoked (snd (main args w)) = invoked w ++ [show_command (interface args)] ∧
  nic (snd (main args w)) = snd (exec (show_command (interface args)) (nic w)) ∧
  ∀ current_mac w1 recorded,
    get_current_mac (interface args) w = (Return current_mac, w1) →
    truthy current_mac = true →
    fst (get_original_mac (interface args) w1) = Return recorded →
    ∃ w2,
      main args w =
        (Return tt,
         printed (ShowOriginal (interface args)
                    (if truthy recorded then recorded else current_mac))
           (printed (ShowCurrent (interface args) current_mac) w2)).
Proof.
  destruct args as [iface m r sh]. cbn [show interface].
  intros ->. rewrite !main_show_eq.
  split; [reflexivity|].
  pose proof (get_current_mac_frame iface w) as (_ & Hinv & Hnic).
  cbv zeta in Hinv, Hnic.
  destruct (get_current_mac iface w) as [[current_mac|e] w1] eqn:Hread;
    cbn [snd] in Hinv, Hnic.
  2:{ split; [done|]. split; [done|]. intros ? ? ? [=]. }
  destruct (truthy current_mac) eqn:Hcur; cbn [negb].
  2:{ split; [done|]. split; [done|]. intros ? ? ? [= <- <-]. congruence. }
  pose proof (get_original_mac_world iface w1) as Hw2.
  destruct (get_original_mac iface w1) as [[recorded|e] w2] eqn:Hget;
    cbn [snd] in Hw2; subst w2.
  2:{ split; [done|]. split; [done|]. intros ? ? ? [= <- <-] _ Hr.
      by rewrite Hget in Hr. }
  destruct (truthy recorded) eqn:Hrec; cbn [negb].
  - split; [done|]. split; [done|].
    intros ? ? ? [= <- <-] _ Hr. rewrite Hget in Hr. injection Hr as <-.
    rewrite Hrec. by exists w1.
  - destruct (save_returns_after_get iface current_mac recorded w1)
      as [w3 Hsave]; [by rewrite Hget|].
    pose proof (save_original_mac_frame_os iface current_mac w1) as [Hn Hi].
    cbv zeta in Hn, Hi. rewrite Hsave in Hn, Hi |- *. cbn [snd] in Hn, Hi.
    split; [cbn; congruence|]. split; [cbn; congruence|].
    intros ? ? ? [= <- <-] _ Hr. rewrite Hget in Hr. injection Hr as <-.
    rewrite Hrec. by exists w3.
Qed.
(** Every call of the writer runs the down command first, so a run whose
    command log has no such entry did not call it. *)
Lemma set_mac_address_invokes (interface : pystr) (new_mac : pyval)
    (w : world) :
  ∃ rest,
    invoked (snd (set_mac_address interface new_mac w))
      = invoked w ++ down_command interface :: rest.
Proof.
  assert ((∃ m, new_mac = PyStr m) ∨ (∀ m, new_mac ≠ PyStr m))
    as [[m ->]|Hns] by (destruct new_mac; eauto).
  - rewrite set_mac_address_eq. cbv zeta.
    destruct (starts (down_command interface) _); cbn [negb];
      [|by exists []].
    destruct (starts (hw_command interface m) _); cbn [negb].
    2:{ eexists. cbn. by rewrite <- app_assoc. }
    destruct (starts (up_command interface) _); cbn [negb].
    2:{ eexists. cbn. by rewrite <- !app_assoc. }
    pose proof (get_current_mac_frame interface (brought_up interface m w))
      as (_ & Hinv & _). cbv zeta in Hinv.
    destruct (get_current_mac interface _) as [[cur|e] w'];
      cbn [snd] in Hinv.
    + eexists. destruct (mac_eq cur (PyStr m)); cbn [snd printed invoked];
        rewrite Hinv; cbn; by rewrite <- !app_assoc.
    + eexists. cbn [snd printed invoked].
      rewrite Hinv; cbn; by rewrite <- !app_assoc.
  - rewrite set_mac_address_not_str by done. by exists [].
Qed.

End Properties.

(** * The program on the in-memory interface *)

(** Showing an interface seen for the first time prints its address twice
    and records it. *)
Example show_first_time :
  let w' := snd (main (platform:=fake) show_restore_args
                   (fake_world plain_nic Absent)) in
  console w' = [Saved eth0 (PyStr factory_mac);
                ShowCurrent eth0 (PyStr factory_mac);
                ShowOriginal eth0 (PyStr factory_mac)] ∧
  stored (config_file w') eth0 = Some (PyStr factory_mac) ∧
  invoked w' = [show_command eth0].
Proof. vm_compute. done. Qed.

(** Setting an address: down, set, up, read back; the record keeps the
    first address. *)
Example set_explicit_mac :
  let w' := snd (main (platform:=fake) set_args
                   (fake_world plain_nic Absent)) in
  console w' = [Saved eth0 (PyStr factory_mac);
                Changing eth0 (PyStr chosen_mac);
                Changed (PyStr chosen_mac)] ∧
  stored (config_file w') eth0 = Some (PyStr factory_mac) ∧
  address (nic w') = chosen_mac ∧
  invoked w' = [show_command eth0; down_command eth0;
                hw_command eth0 chosen_mac; up_command eth0;
                show_command eth0].
Proof. vm_compute. done. Qed.

(** The set command exits with status 1 on an interface that refuses new
    addresses; the writer still reports success when the address read back
    is the requested one. *)
Example nonzero_status_success :
  fst (exec (hw_command eth0 chosen_mac)
         (nic (brought_down eth0 (PyStr chosen_mac)
                 (fake_world fixed_nic Absent))))
    = Exited 1 (Utf8 []) ∧
  fst (set_mac_address (platform:=fake) eth0 (PyStr chosen_mac)
         (fake_world fixed_nic Absent))
    = Return true.
Proof. vm_compute. done. Qed.

(** Without [--mac] the address is generated. *)
Example set_random_mac :
  let args := {| interface := eth0; mac := None; restore := false;
                 show := false |} in
  let w' := snd (main (platform:=fake) args (fake_world plain_nic Absent)) in
  address (nic w') = lit "06:2a:4f:74:99:be" ∧ drawn w' = 6%nat.
Proof. vm_compute. done. Qed.

(** The reader on uppercase output: the string comes back as printed, and
    it is not canonical. *)
Lemma get_current_mac_uppercase :
  fst (get_current_mac (platform:=fake) eth0 (fake_world upper_nic Absent))
    = Return (PyStr upper_mac) ∧
  ¬ canonical upper_mac.
Proof.
  split; [by vm_compute|].
  rewrite <- canonicalb_canonical. by vm_compute.
Qed.

Lemma get_current_mac_class_witness :
  (∃ status text,
      fst (exec (show_command eth0) (nic (fake_world upper_nic Absent)))
        = Exited status (Utf8 text) ∧
      status = 0 ∧ re_search text = Some upper_mac) ∧
  length upper_mac = 17%nat ∧ forallb mac_char upper_mac = true.
Proof.
  apply (get_current_mac_class (platform:=fake) eth0
           (fake_world upper_nic Absent)
           (snd (get_current_mac eth0 (fake_world upper_nic Absent)))).
  vm_compute. reflexivity.
Defined.

Lemma set_mac_address_unreadable_witness :
  set_mac_address (platform:=fake) eth0 (PyStr chosen_mac)
      (fake_world silent_nic Absent)
    = (Return false,
       printed (FailedChange (PyStr chosen_mac))
         (snd (get_current_mac eth0
                 (brought_up eth0 chosen_mac (fake_world silent_nic Absent)))))
  ∧ address (nic (brought_up eth0 chosen_mac (fake_world silent_nic Absent)))
    = chosen_mac.
Proof.
  split; [|by vm_compute].
  apply (set_mac_address_unreadable (platform:=fake) eth0 chosen_mac
           (fake_world silent_nic Absent));
    vm_compute; reflexivity.
Defined.

Lemma save_original_mac_first_write_wins_witness :
  (save_original_mac (platform:=fake) eth0 (PyStr chosen_mac) recorded_world
     = (Return tt, recorded_world) ∧
   stored (config_file
             (snd (save_original_mac eth0 (PyStr chosen_mac) recorded_world)))
          eth0 = Some (PyStr factory_mac)) ∧
  ∃ w1 w2,
    save_original_mac (platform:=fake) eth0 (PyStr factory_mac)
        (fake_world plain_nic Absent) = (Return tt, w1) ∧
    save_original_mac eth0 (PyStr chosen_mac) w1 = (Return tt, w2) ∧
    stored (config_file w1) eth0 = Some (PyStr factory_mac) ∧
    stored (config_file w2) eth0 = Some (PyStr factory_mac).
Proof.
  split.
  - apply (proj1 (save_original_mac_first_write_wins (platform:=fake)
                    eth0 (PyStr chosen_mac) recorded_world)).
    vm_compute. reflexivity.
  - apply (proj2 (save_original_mac_first_write_wins (platform:=fake)
                    eth0 (PyStr factory_mac) (fake_world plain_nic Absent))).
    reflexivity.
Defined.

Lemma save_then_get_witness :
  get_original_mac (platform:=fake) eth0 (fake_world plain_nic Absent)
    = (Return PyNone, fake_world plain_nic Absent) ∧
  ∃ w1,
    save_original_mac eth0 (PyStr (lit "aa:bb:cc:dd:ee:ff"))
        (fake_world plain_nic Absent) = (Return tt, w1) ∧
    get_original_mac eth0 w1 = (Return (PyStr (lit "aa:bb:cc:dd:ee:ff")), w1).
Proof.
  apply (save_then_get (platform:=fake) eth0 (PyStr (lit "aa:bb:cc:dd:ee:ff"))
           (fake_world plain_nic Absent)).
  reflexivity.
Defined.

Lemma save_original_mac_frame_witness :
  let w' := snd (save_original_mac (platform:=fake) wlan0 (PyStr chosen_mac)
                   recorded_world) in
  stored (config_file w') eth0 = stored (config_file recorded_world) eth0 ∧
  fst (get_original_mac eth0 w') = fst (get_original_mac eth0 recorded_world).
Proof.
  apply (save_original_mac_frame (platform:=fake) wlan0 eth0 (PyStr chosen_mac)
           recorded_world).
  intros E. vm_compute in E. discriminate E.
Defined.

Lemma malformed_record_is_fatal_witness :
  save_original_mac (platform:=fake) eth0 (PyStr factory_mac)
      (fake_world plain_nic Malformed)
    = (Raise JSONDecodeError, fake_world plain_nic Malformed) ∧
  get_original_mac eth0 (fake_world plain_nic Malformed)
    = (Raise JSONDecodeError, fake_world plain_nic Malformed) ∧
  main show_restore_args (fake_world plain_nic Malformed)
    = (Raise JSONDecodeError,
       snd (get_current_mac eth0 (fake_world plain_nic Malformed))).
Proof.
  destruct (malformed_record_is_fatal (platform:=fake)
              (fake_world plain_nic Malformed) eq_refl)
    as (Hsave & Hget & Hmain).
  split; [apply Hsave|]. split; [apply Hget|].
  apply (Hmain show_restore_args (PyStr factory_mac)
           (snd (get_current_mac eth0 (fake_world plain_nic Malformed))));
    vm_compute; reflexivity.
Defined.

Lemma main_unreadable_witness :
  let w := fake_world silent_nic Absent in
  let w1 := snd (get_current_mac (platform:=fake) eth0 w) in
  main set_args w = (Return tt, printed (NoCurrent eth0) w1) ∧
  config_file (snd (main set_args w)) = config_file w ∧
  invoked (snd (main set_args w)) = invoked w ++ [show_command eth0].
Proof.
  apply (main_unreadable (platform:=fake) set_args
           (fake_world silent_nic Absent)).
  vm_compute. reflexivity.
Defined.

Lemma main_show_witness :
  let w := recorded_world in
  main (platform:=fake) show_restore_args w
    = main {| interface := eth0; mac := None; restore := false;
              show := true |} w ∧
  invoked (snd (main show_restore_args w)) = invoked w ++ [show_command eth0] ∧
  nic (snd (main show_restore_args w))
    = snd (exec (show_command eth0) (nic w)) ∧
  ∃ w2,
    main show_restore_args w =
      (Return tt,
       printed (ShowOriginal eth0 (PyStr factory_mac))
         (printed (ShowCurrent eth0 (PyStr factory_mac)) w2)).
Proof.
  destruct (main_show (platform:=fake) show_restore_args recorded_world
              eq_refl) as (Hsame & Hinv & Hnic & Hprint).
  split; [exact Hsame|]. split; [exact Hinv|]. split; [exact Hnic|].
  apply (Hprint (PyStr factory_mac)
           (snd (get_current_mac eth0 recorded_world))
           (PyStr factory_mac));
    vm_compute; reflexivity.
Defined.

(** * Further properties of the code *)

(** ** The pattern, in both directions *)

Lemma starts_with_app (p s : pystr) : starts_with p (p ++ s) = true.
Proof.
  induction p as [|a p IH]; [done|].
  simpl. by rewrite bool_decide_eq_true_2.
Qed.

Lemma starts_with_split (p s : pystr) :
  starts_with p s = true → s = p ++ drop (length p) s.
Proof.
  revert s. induction p as [|a p IH]; intros [|b s]; simpl; try done.
  intros Hps. apply andb_prop in Hps as [Hab Hrest].
  apply bool_decide_eq_true in Hab as ->. f_equal. by apply IH.
Qed.

(** No character of the class is a whitespace character. *)
Lemma mac_char_not_space (c : N) : mac_char c = true → is_space c = false.
Proof.
  intros Hc.
  assert (48 ≤ c ≤ 102)%N as Hrange.
  { unfold mac_char, is_lower_hex, is_upper_hex, is_digit, colon in Hc.
    repeat match type of Hc with
           | _ || _ = true => apply orb_prop in Hc as [Hc|Hc]
           end;
      try (apply andb_prop in Hc as [Hlo Hhi];
           apply N.leb_le in Hlo, Hhi; lia).
    apply bool_decide_eq_true in Hc. lia. }
  unfold is_space.
  repeat match goal with
         | |- context [(?a <=? ?b)%N] => destruct (N.leb_spec a b); try lia
         | |- context [(?a =? ?b)%N] => destruct (N.eqb_spec a b); try lia
         end.
  all: reflexivity.
Qed.

Lemma match_group_app (g rest : pystr) :
  length g = 17%nat → forallb mac_char g = true →
  match_group (g ++ rest) = Some g.
Proof.
  intros Hlen Hall.
  assert (take 17 (g ++ rest) = g) as Htake
    by (rewrite <- Hlen; apply take_app_length).
  unfold match_group. rewrite Htake.
  by rewrite bool_decide_eq_true_2, Hall.
Qed.

Lemma match_spaces_app (ws g rest : pystr) :
  forallb is_space ws = true → length g = 17%nat →
  forallb mac_char g = true →
  match_spaces (ws ++ g ++ rest) = Some g.
Proof.
  intros Hws Hlen Hall. induction ws as [|c ws IH].
  - destruct g as [|c g]; [done|].
    pose proof Hall as Hc. cbn [forallb] in Hc.
    apply andb_prop in Hc as [Hc _]. apply mac_char_not_space in Hc.
    cbn [app match_spaces]. rewrite Hc.
    by apply (match_group_app (c :: g)).
  - cbn [forallb] in Hws. apply andb_prop in Hws as [Hc Hws].
    cbn [app match_spaces]. rewrite Hc. by rewrite IH.
Qed.

Lemma match_group_split (s g : pystr) :
  match_group s = Some g → s = g ++ drop 17 s.
Proof.
  unfold match_group.
  destruct (bool_decide _ && forallb mac_char _); [|done].
  intros [= <-]. by rewrite take_drop.
Qed.

Lemma match_spaces_split (s g : pystr) :
  match_spaces s = Some g →
  ∃ ws rest, s = ws ++ g ++ rest ∧ forallb is_space ws = true.
Proof.
  induction s as [|c s IH]; cbn [match_spaces].
  - intros Hg. exists [], (drop 17 []). split; [|done].
    by apply match_group_split in Hg.
  - destruct (is_space c) eqn:Hc.
    + destruct (match_spaces s) as [g'|].
      * intros [= ->]. destruct IH as (ws & rest & -> & Hws); [done|].
        exists (c :: ws), rest. split; [done|]. simpl. by rewrite Hc.
      * intros Hg. exists [], (drop 17 (c :: s)). split; [|done].
        by apply match_group_split in Hg.
    + intros Hg. exists [], (drop 17 (c :: s)). split; [|done].
      by apply match_group_split in Hg.
Qed.

Lemma match_here_split (s g : pystr) :
  match_here s = Some g →
  ∃ ws rest,
    s = lit "ether" ++ ws ++ g ++ rest ∧ ws ≠ [] ∧
    forallb is_space ws = true.
Proof.
  unfold match_here.
  destruct (starts_with (lit "ether") s) eqn:Hp; [|done].
  apply starts_with_split in Hp. change (length (lit "ether")) with 5%nat in Hp.
  destruct (drop 5 s) as [|c s'] eqn:Hdrop; [done|].
  destruct (is_space c) eqn:Hc; [|done].
  intros (ws & rest & -> & Hws)%match_spaces_split.
  exists (c :: ws), rest. split; [by rewrite Hp at 1|].
  split; [done|]. simpl. by rewrite Hc.
Qed.

Lemma re_search_split (s g : pystr) :
  re_search s = Some g →
  ∃ pre ws rest,
    s = pre ++ lit "ether" ++ ws ++ g ++ rest ∧ ws ≠ [] ∧
    forallb is_space ws = true.
Proof.
  induction s as [|c s IH]; cbn [re_search].
  - destruct (match_here []) as [g'|] eqn:Hm; [|done].
    intros [= ->]. apply match_here_split in Hm as (ws & rest & ? & ? & ?).
    by exists [], ws, rest.
  - destruct (match_here (c :: s)) as [g'|] eqn:Hm.
    + intros [= ->]. apply match_here_split in Hm as (ws & rest & ? & ? & ?).
      by exists [], ws, rest.
    + intros (pre & ws & rest & -> & ? & ?)%IH.
      by exists (c :: pre), ws, rest.
Qed.

Lemma re_search_here (s g : pystr) :
  match_here s = Some g → re_search s = Some g.
Proof. intros Hm. destruct s; cbn [re_search]; by rewrite Hm. Qed.

Lemma re_search_app (pre s g : pystr) :
  re_search s = Some g → ∃ g', re_search (pre ++ s) = Some g'.
Proof.
  intros Hs. induction pre as [|c pre [g' IH]]; [eauto|].
  cbn [app re_search]. destruct (match_here _); eauto.
Qed.

Lemma match_here_app (ws g rest : pystr) :
  ws ≠ [] → forallb is_space ws = true → length g = 17%nat →
  forallb mac_char g = true →
  match_here (lit "ether" ++ ws ++ g ++ rest) = Some g.
Proof.
  intros Hne Hws Hlen Hall. unfold match_here.
  rewrite starts_with_app.
  change 5%nat with (length (lit "ether")). rewrite drop_app_length.
  destruct ws as [|c ws]; [done|].
  cbn [forallb] in Hws. apply andb_prop in Hws as [Hc Hws].
  cbn [app]. rewrite Hc. by apply match_spaces_app.
Qed.

Lemma canonical_class (m : pystr) :
  canonical m → length m = 17%nat ∧ forallb mac_char m = true.
Proof.
  intros Hm%canonicalb_canonical. unfold canonicalb in Hm.
  do 17 (destruct m as [|? m]; [discriminate Hm|]).
  destruct m; [|discriminate Hm].
  split; [reflexivity|].
  apply andb_prop in Hm as [Hhex Hcol]. cbn [forallb] in Hhex, Hcol.
  repeat match goal with
         | H : _ && _ = true |- _ => apply andb_prop in H as [? ?]
         end.
  cbn [forallb]. unfold mac_char.
  repeat match goal with
         | H : is_lower_hex ?c = true |- _ => rewrite H; clear H
         | H : bool_decide (?c = colon) = true |- _ => rewrite H; clear H
         end.
  by rewrite ?orb_true_r.
Qed.

Section Further.
Context {platform : Platform}.

(** ** The reader: every outcome *)

(** X1. The reader returns [None] exactly when the command ran and either
    exited with a non-zero status (whatever it printed) or exited with 0 and
    printed text in which the pattern does not occur. *)
Theorem get_current_mac_none_iff (interface : pystr) (w : world) :
  fst (get_current_mac interface w) = Return PyNone ↔
  ∃ status out,
    fst (exec (show_command interface) (nic w)) = Exited status out ∧
    (status ≠ 0 ∨ ∃ text, out = Utf8 text ∧ re_search text = None).
Proof.
  rewrite get_current_mac_eq. cbv zeta.
  destruct (fst (exec _ (nic w))) as [status out|].
  - destruct (Z.eqb_spec status 0) as [->|Hst].
    + destruct out as [text|].
      * destruct (re_search text) as [g|] eqn:Hre; cbn [fst].
        -- split; [done|].
           intros (? & ? & [= <- <-] & [?|(? & [= <-] & ?)]); congruence.
        -- split; [|done]. intros _. exists 0, (Utf8 text). eauto.
      * cbn [fst]. split; [done|].
        intros (? & ? & [= <- <-] & [?|(? & [=] & ?)]). done.
    + cbn [fst]. split; [|done]. intros _. exists status, out. eauto.
  - cbn [fst]. split; [done|]. by intros (? & ? & [=] & _).
Qed.

(** X2. The reader lets an exception out in two cases only: the command
    could not be started, or it exited with 0 and its output is not UTF-8.
    [CalledProcessError] never leaves it. *)
Theorem get_current_mac_raises_iff (interface : pystr) (w : world)
    (e : exn) :
  fst (get_current_mac interface w) = Raise e ↔
  (fst (exec (show_command interface) (nic w)) = NotStarted ∧
   e = SpawnError) ∨
  (fst (exec (show_command interface) (nic w)) = Exited 0 NotUtf8 ∧
   e = UnicodeDecodeError).
Proof.
  rewrite get_current_mac_eq. cbv zeta.
  destruct (fst (exec _ (nic w))) as [status out|].
  - destruct (Z.eqb_spec status 0) as [->|Hst].
    + destruct out as [text|].
      * destruct (re_search text); cbn [fst];
          (split; [done|]; by intros [[[=] _]|[[=] _]]).
      * cbn [fst]. split.
        -- intros [= <-]. by right.
        -- intros [[[=] _]|[_ ->]]. done.
    + cbn [fst]. split; [done|].
      intros [[[=] _]|[[= -> _] _]]. done.
  - cbn [fst]. split.
    + intros [= <-]. by left.
    + intros [[_ ->]|[[=] _]]. done.
Qed.

(** X3. A string returned by the reader stands in the command's output
    right after the word [ether] and one or more whitespace characters, and
    the command exited with status 0. *)
Theorem get_current_mac_located (interface : pystr) (w w' : world)
    (g : pystr) :
  get_current_mac interface w = (Return (PyStr g), w') →
  ∃ pre ws rest,
    fst (exec (show_command interface) (nic w))
      = Exited 0 (Utf8 (pre ++ lit "ether" ++ ws ++ g ++ rest)) ∧
    ws ≠ [] ∧ forallb is_space ws = true ∧
    w' = after_exec (show_command interface) w.
Proof.
  rewrite get_current_mac_eq. cbv zeta.
  destruct (fst (exec _ (nic w))) as [status [text|]|]; [| |done].
  - destruct (Z.eqb_spec status 0) as [->|Hst]; [|done].
    destruct (re_search text) as [g'|] eqn:Hre; [|done].
    intros [= -> <-].
    apply re_search_split in Hre as (pre & ws & rest & -> & Hne & Hws).
    by exists pre, ws, rest.
  - by destruct (status =? 0).
Qed.

(** X4. When the command exits with 0 and its output contains [ether], one
    or more whitespace characters and seventeen characters of the class, the
    reader returns a string and prints nothing; when the output starts with
    that, the string is those seventeen characters. *)
Theorem get_current_mac_finds (interface : pystr) (w : world)
    (pre ws g rest : pystr) :
  fst (exec (show_command interface) (nic w))
    = Exited 0 (Utf8 (pre ++ lit "ether" ++ ws ++ g ++ rest)) →
  ws ≠ [] → forallb is_space ws = true →
  length g = 17%nat → forallb mac_char g = true →
  (∃ g', get_current_mac interface w
           = (Return (PyStr g'), after_exec (show_command interface) w)) ∧
  (pre = [] →
   get_current_mac interface w
     = (Return (PyStr g), after_exec (show_command interface) w)).
Proof.
  intros Hexec Hne Hws Hlen Hall.
  pose proof (match_here_app ws g rest Hne Hws Hlen Hall) as Hhere.
  apply re_search_here in Hhere.
  rewrite get_current_mac_eq. cbv zeta. rewrite Hexec. cbn [Z.eqb].
  split.
  - destruct (re_search_app pre _ _ Hhere) as [g' ->]. eauto.
  - intros ->. cbn [app]. by rewrite Hhere.
Qed.

(** X5. What the generator returns is accepted by the reader's pattern: in
    any text that starts with [ether], whitespace and the generated address,
    the pattern finds exactly that address. *)
Theorem generate_random_mac_readable (w : world) :
  ∃ m w',
    generate_random_mac w = (Return (PyStr m), w') ∧
    ∀ ws rest,
      ws ≠ [] → forallb is_space ws = true →
      re_search (lit "ether" ++ ws ++ m ++ rest) = Some m.
Proof.
  destruct (append_random_spec 5
              [Z.lor (Z.land (next_draw 0 255 w) 0xFE) 0x02]
              (World (nic w) (config_file w) (entropy w) (S (drawn w))
                     (console w) (invoked w)))
    as (rest5 & w' & Hrun & Hlen & Hall & _).
  eexists _, w'. split.
  { unfold generate_random_mac, bind, randint. by rewrite Hrun. }
  intros ws rest Hne Hws.
  destruct (canonical_class
              (format_mac ([Z.lor (Z.land (next_draw 0 255 w) 0xFE) 0x02]
                           ++ rest5))) as [H17 Hclass].
  { apply format_mac_canonical; [simpl; by rewrite Hlen|].
    constructor; [|done]. apply first_byte_range, next_draw_byte. }
  apply re_search_here. by apply match_here_app.
Qed.

(** ** The writer: what it runs and what it leaves alone *)

Lemma set_mac_address_returns (interface : pystr) (new_mac : pyval)
    (w : world) :
  ∃ b w', set_mac_address interface new_mac w = (Return b, w').
Proof.
  assert ((∃ m, new_mac = PyStr m) ∨ (∀ m, new_mac ≠ PyStr m))
    as [[m ->]|Hns] by (destruct new_mac; eauto).
  - rewrite set_mac_address_eq. cbv zeta.
    repeat (destruct (starts _ _); cbn [negb]; [|eauto]).
    destruct (get_current_mac interface _) as [[cur|e] w']; [|eauto].
    destruct (mac_eq cur (PyStr m)); eauto.
  - rewrite set_mac_address_not_str by done. eauto.
Qed.

Lemma set_mac_address_record (interface : pystr) (new_mac : pyval)
    (w : world) :
  config_file (snd (set_mac_address interface new_mac w)) = config_file w.
Proof.
  assert ((∃ m, new_mac = PyStr m) ∨ (∀ m, new_mac ≠ PyStr m))
    as [[m ->]|Hns] by (destruct new_mac; eauto).
  - rewrite set_mac_address_eq. cbv zeta.
    repeat (destruct (starts _ _); cbn [negb]; [|done]).
    pose proof (get_current_mac_frame interface (brought_up interface m w))
      as (Hcfg & _). cbv zeta in Hcfg.
    destruct (get_current_mac interface _) as [[cur|e] w'];
      cbn [snd] in Hcfg; [|done].
    by destruct (mac_eq cur (PyStr m)).
  - by rewrite set_mac_address_not_str.
Qed.

(** X6. When its three commands can be started, the writer runs exactly
    four commands, in this order: down, set hardware address, up, show. *)
Theorem set_mac_address_commands (interface m : pystr) (w : world) :
  starts (down_command interface) (announced interface (PyStr m) w) = true →
  starts (hw_command interface m) (brought_down interface (PyStr m) w) = true →
  starts (up_command interface) (address_set interface m w) = true →
  invoked (snd (set_mac_address interface (PyStr m) w))
    = invoked w ++ [down_command interface; hw_command interface m;
                    up_command interface; show_command interface].
Proof.
  intros H1 H2 H3. rewrite set_mac_address_eq. cbv zeta.
  rewrite H1, H2, H3. cbn [negb].
  pose proof (get_current_mac_frame interface (brought_up interface m w))
    as (_ & Hinv & _). cbv zeta in Hinv.
  assert (invoked (brought_up interface m w)
          = invoked w ++ [down_command interface; hw_command interface m;
                          up_command interface]) as Hup
    by (cbn; by rewrite <- !app_assoc).
  rewrite Hup, <- app_assoc in Hinv.
  destruct (get_current_mac interface _) as [[cur|e] w'];
    cbn [snd] in Hinv; [|done].
  by destruct (mac_eq cur (PyStr m)).
Qed.

(** X7. The writer never reads or writes the record file and never draws
    from the random source, whatever its arguments and whatever the commands
    do; it announces the change first. *)
Theorem set_mac_address_keeps_record (interface : pystr) (new_mac : pyval)
    (w : world) :
  let w' := snd (set_mac_address interface new_mac w) in
  config_file w' = config_file w ∧ drawn w' = drawn w ∧
  ∃ more, console w' = console w ++ Changing interface new_mac :: more.
Proof.
  cbv zeta. split; [apply set_mac_address_record|].
  assert (∀ w0 : world,
            drawn (snd (get_current_mac interface w0)) = drawn w0 ∧
            ∃ more, console (snd (get_current_mac interface w0))
                    = console w0 ++ more) as Hread.
  { intros w0. rewrite get_current_mac_eq. cbv zeta.
    destruct (fst (exec _ (nic w0))) as [status [text|]|].
    - destruct (status =? 0); [|split; [done|by eexists]].
      destruct (re_search text); (split; [done|]).
      + exists []. by rewrite app_nil_r.
      + by eexists.
    - destruct (status =? 0); (split; [done|]).
      + exists []. by rewrite app_nil_r.
      + by eexists.
    - split; [done|]. exists []. by rewrite app_nil_r. }
  assert ((∃ m, new_mac = PyStr m) ∨ (∀ m, new_mac ≠ PyStr m))
    as [[m ->]|Hns] by (destruct new_mac; eauto).
  - rewrite set_mac_address_eq. cbv zeta.
    destruct (starts _ _); cbn [negb];
      [|split; [done|]; eexists; cbn; by rewrite <- app_assoc].
    destruct (starts _ _); cbn [negb];
      [|split; [done|]; eexists; cbn; by rewrite <- app_assoc].
    destruct (starts _ _); cbn [negb];
      [|split; [done|]; eexists; cbn; by rewrite <- app_assoc].
    destruct (Hread (brought_up interface m w)) as (Hd & more & Hc).
    destruct (get_current_mac interface _) as [[cur|e] w'];
      cbn [snd] in Hd, Hc.
    + destruct (mac_eq cur (PyStr m)); cbn [snd printed drawn console];
        rewrite Hd, Hc; (split; [done|]); eexists; cbn;
        by rewrite <- !app_assoc.
    + cbn [snd printed drawn console]. rewrite Hd, Hc.
      split; [done|]. eexists. cbn. by rewrite <- !app_assoc.
  - rewrite set_mac_address_not_str by done.
    split; [done|]. eexists. cbn. by rewrite <- app_assoc.
Qed.

(** X8. A target that is not a string (a number or a list taken from the
    record, say) makes the writer fail after the down command: it returns
    [False] having run that one command, so the up command is not run. *)
Theorem set_mac_address_not_str_stops (interface : pystr) (new_mac : pyval)
    (w : world) :
  (∀ m, new_mac ≠ PyStr m) →
  starts (down_command interface) (announced interface new_mac w) = true →
  let r := set_mac_address interface new_mac w in
  fst r = Return false ∧
  invoked (snd r) = invoked w ++ [down_command interface] ∧
  nic (snd r) = snd (exec (down_command interface) (nic w)) ∧
  console (snd r)
    = console w ++ [Changing interface new_mac; ErrorChanging TypeError].
Proof.
  intros Hns Hdown. cbv zeta.
  rewrite set_mac_address_not_str by done. rewrite Hdown.
  cbn. by rewrite <- app_assoc.
Qed.

(** ** The store: failures and repeated saves *)

(** X9. [save] raises in exactly these cases: the file is not JSON (the
    parse error), or it holds a JSON value that is not an object and, when
    that value is a list or a string, the interface name is not among its
    elements, respectively not a substring of it ([TypeError]).  With no
    file, with an object, with a list that has the name as an element or a
    string that contains it, [save] returns.  A [save] that raises has
    changed nothing: the record file, the console and everything else are as
    before. *)
Theorem save_original_mac_raises (interface : pystr) (mac : pyval)
    (w : world) (e : exn) :
  (fst (save_original_mac interface mac w) = Raise e ↔
   (config_file w = Malformed ∧ e = JSONDecodeError) ∨
   (∃ v, config_file w = Document v ∧ e = TypeError ∧
         match v with
         | PyDict _ => False
         | PyList l => existsb (str_eq interface) l = false
         | PyStr t => substring interface t = false
         | _ => True
         end)) ∧
  (fst (save_original_mac interface mac w) = Raise e →
   snd (save_original_mac interface mac w) = w).
Proof.
  rewrite save_original_mac_eq.
  destruct (config_file w) as [| |v].
  - split; [|done]. split; [done|].
    intros [[[=] _]|(v & [=] & _)].
  - split; [|done]. split.
    + intros [= <-]. by left.
    + intros [[_ ->]|(v & [=] & _)]. done.
  - destruct v as [| | | |t|l|d].
    1-4: (split; [|done]; split;
          [intros [= <-]; right; by eexists
          |intros [[[=] _]|(v & _ & -> & _)]; done]).
    + destruct (substring interface t) eqn:Hin.
      * split; [|done]. split; [done|].
        intros [[[=] _]|(v & [= <-] & _ & Hv)]. congruence.
      * split; [|done]. split.
        -- intros [= <-]. right. by eexists.
        -- intros [[[=] _]|(v & _ & -> & _)]. done.
    + destruct (existsb (str_eq interface) l) eqn:Hin.
      * split; [|done]. split; [done|].
        intros [[[=] _]|(v & [= <-] & _ & Hv)]. congruence.
      * split; [|done]. split.
        -- intros [= <-]. right. by eexists.
        -- intros [[[=] _]|(v & _ & -> & _)]. done.
    + destruct (bool_decide (is_Some (d !! interface)));
        (split; [|done]; split; [done|];
         intros [[[=] _]|(v & [= <-] & _ & Hv)]; done).
Qed.

(** X10. After a [save] that returned, any further [save] for the same
    interface, with whatever value, returns and changes nothing at all: no
    entry is touched and nothing is printed. *)
Theorem save_original_mac_again (interface : pystr) (mac1 mac2 : pyval)
    (w w1 : world) :
  save_original_mac interface mac1 w = (Return tt, w1) →
  save_original_mac interface mac2 w1 = (Return tt, w1).
Proof.
  rewrite !save_original_mac_eq.
  destruct (config_file w) as [| |v] eqn:Hfile; [|done|].
  - intros [= <-]. cbn [wrote config_file].
    rewrite bool_decide_eq_true_2 by (rewrite lookup_insert_eq; eauto).
    reflexivity.
  - destruct v as [| | | |t|l|d]; try done.
    + destruct (substring interface t) eqn:Hin; [|done].
      intros [= <-]. cbn [wrote config_file]. by rewrite Hin.
    + destruct (existsb (str_eq interface) l) eqn:Hin; [|done].
      intros [= <-]. cbn [wrote config_file]. by rewrite Hin.
    + destruct (bool_decide (is_Some (d !! interface))) eqn:Hin.
      * intros [= <-]. cbn [wrote config_file]. by rewrite Hin.
      * intros [= <-]. cbn [wrote config_file].
        rewrite bool_decide_eq_true_2 by (rewrite lookup_insert_eq; eauto).
        reflexivity.
Qed.

(** X11. A record file that holds valid JSON other than an object (a list,
    a string, a number, null) makes [get] raise [AttributeError], and with
    it every run of [main] whose initial read gave an address; nothing is
    written. *)
Theorem get_original_mac_not_object (w : world) (v : pyval) :
  config_file w = Document v → (∀ d, v ≠ PyDict d) →
  (∀ interface,
     get_original_mac interface w = (Raise AttributeError, w)) ∧
  (∀ args current_mac w1,
     get_current_mac (interface args) w = (Return current_mac, w1) →
     truthy current_mac = true →
     main args w = (Raise AttributeError, w1) ∧
     config_file w1 = Document v).
Proof.
  intros Hfile Hv.
  assert (∀ w0 interface, config_file w0 = Document v →
            get_original_mac interface w0 = (Raise AttributeError, w0))
    as Hget.
  { intros w0 interface Hf. rewrite get_original_mac_eq, Hf.
    destruct v; try done. by destruct (Hv d). }
  split; [intros; by apply Hget|].
  intros args current_mac w1 Hread Htrue.
  pose proof (get_current_mac_frame (interface args) w) as [Hcfg _].
  rewrite Hread in Hcfg. cbn [snd] in Hcfg. rewrite Hfile in Hcfg.
  split; [|done].
  unfold main. unfold bind at 1. rewrite Hread, Htrue. cbn [negb].
  unfold bind at 1. by rewrite Hget.
Qed.

(** ** The entry flow after the preamble *)

Lemma append_random_drawn (n : nat) (mac : list Z) (w : world) :
  drawn (snd (append_random n mac w)) = (drawn w + n)%nat.
Proof.
  revert mac w. induction n as [|n IH]; intros mac w.
  - cbn. lia.
  - cbn [append_random]. unfold bind, randint. rewrite IH. cbn. lia.
Qed.

(** The generator returns a canonical string, draws six numbers and changes
    nothing else. *)
Lemma generate_random_mac_frame (w : world) :
  ∃ g w',
    generate_random_mac w = (Return (PyStr g), w') ∧ canonical g ∧
    same_but_drawn w w' ∧ drawn w' = (drawn w + 6)%nat.
Proof.
  pose proof (append_random_drawn 5
                [Z.lor (Z.land (next_draw 0 255 w) 0xFE) 0x02]
                (World (nic w) (config_file w) (entropy w) (S (drawn w))
                       (console w) (invoked w))) as Hdrawn.
  destruct (append_random_spec 5
              [Z.lor (Z.land (next_draw 0 255 w) 0xFE) 0x02]
              (World (nic w) (config_file w) (entropy w) (S (drawn w))
                     (console w) (invoked w)))
    as (rest5 & w' & Hrun & Hlen & Hall & Hsame).
  rewrite Hrun in Hdrawn. cbn [snd drawn] in Hdrawn.
  eexists _, w'. split.
  { unfold generate_random_mac, bind, randint. by rewrite Hrun. }
  split; [|split; [exact Hsame|lia]].
  apply format_mac_canonical; [simpl; by rewrite Hlen|].
  constructor; [|done]. apply first_byte_range, next_draw_byte.
Qed.

(** [main] once the initial read gave an address and the record was looked
    up: the original address for the run, the world after the preamble, and
    what each flag combination does from there. *)
Lemma main_after_preamble (args : Args) (w w1 : world)
    (current_mac recorded : pyval) :
  get_current_mac (interface args) w = (Return current_mac, w1) →
  truthy current_mac = true →
  fst (get_original_mac (interface args) w1) = Return recorded →
  let original_mac := if truthy recorded then recorded else current_mac in
  let w2 := if truthy recorded then w1
            else snd (save_original_mac (interface args) current_mac w1) in
  (show args = true →
   main args w =
     (Return tt,
      printed (ShowOriginal (interface args) original_mac)
        (printed (ShowCurrent (interface args) current_mac) w2))) ∧
  (show args = false → restore args = true →
   main args w =
     (Return tt,
      snd (set_mac_address (interface args) original_mac
             (printed (Restoring (interface args)) w2)))) ∧
  (show args = false → restore args = false →
   truthy (of_option (mac args)) = true →
   main args w =
     (Return tt,
      snd (set_mac_address (interface args) (of_option (mac args)) w2))) ∧
  (show args = false → restore args = false →
   truthy (of_option (mac args)) = false →
   ∀ g w3, generate_random_mac w2 = (Return g, w3) →
     main args w = (Return tt, snd (set_mac_address (interface args) g w3))).
Proof.
  intros Hread Hcur Hrec.
  assert (get_original_mac (interface args) w1 = (Return recorded, w1))
    as Hget.
  { pose proof (get_original_mac_world (interface args) w1) as Hw.
    destruct (get_original_mac (interface args) w1) as [o w'].
    cbn [fst snd] in *. congruence. }
  assert (truthy recorded = false →
          ∃ w3, save_original_mac (interface args) current_mac w1
                = (Return tt, w3)) as Hsave.
  { intros _. apply (save_returns_after_get _ _ recorded).
    by rewrite Hget. }
  cbv zeta.
  assert (∀ (T : pyval → M unit) r,
            T (if truthy recorded then recorded else current_mac)
              (if truthy recorded then w1
               else snd (save_original_mac (interface args)
                           current_mac w1)) = r →
            bind (get_original_mac (interface args))
              (λ o, bind (if negb (truthy o)
                          then bind (save_original_mac (interface args)
                                       current_mac)
                                 (λ _, ret current_mac)
                          else ret o) T) w1 = r) as Hpre.
  { intros T r <-. unfold bind at 1. rewrite Hget.
    destruct (truthy recorded); cbn [negb]; [reflexivity|].
    destruct Hsave as [w3 Hs]; [done|].
    unfold bind at 1. unfold bind at 1. by rewrite Hs. }
  repeat split.
  - intros Hshow. unfold main. unfold bind at 1. rewrite Hread, Hcur.
    cbn [negb]. apply Hpre. by rewrite Hshow.
  - intros Hshow Hrestore. unfold main. unfold bind at 1.
    rewrite Hread, Hcur. cbn [negb]. apply Hpre.
    rewrite Hshow, Hrestore.
    unfold bind at 1. unfold print at 1. unfold bind at 1.
    match goal with
    | |- context [set_mac_address ?i ?v ?w0] =>
        destruct (set_mac_address_returns i v w0) as (b & w' & Hret)
    end.
    unfold printed. rewrite Hret. reflexivity.
  - intros Hshow Hrestore Hmac. unfold main. unfold bind at 1.
    rewrite Hread, Hcur. cbn [negb]. apply Hpre.
    rewrite Hshow, Hrestore, Hmac.
    unfold bind at 1. unfold ret at 1. unfold bind at 1.
    match goal with
    | |- context [set_mac_address ?i ?v ?w0] =>
        destruct (set_mac_address_returns i v w0) as (b & w' & Hret)
    end.
    rewrite Hret. reflexivity.
  - intros Hshow Hrestore Hmac g w3 Hgen. unfold main. unfold bind at 1.
    rewrite Hread, Hcur. cbn [negb]. apply Hpre.
    rewrite Hshow, Hrestore, Hmac.
    unfold bind at 1. rewrite Hgen. unfold bind at 1.
    destruct (set_mac_address_returns (interface args) g w3)
      as (b & w' & Hret).
    rewrite Hret. reflexivity.
Qed.

(** After the preamble no flag combination touches the record file. *)
Lemma main_record_after_preamble (args : Args) (w w1 : world)
    (current_mac recorded : pyval) :
  get_current_mac (interface args) w = (Return current_mac, w1) →
  truthy current_mac = true →
  fst (get_original_mac (interface args) w1) = Return recorded →
  config_file (snd (main args w))
    = config_file (if truthy recorded then w1
                   else snd (save_original_mac (interface args)
                               current_mac w1)).
Proof.
  intros Hread Hcur Hrec.
  destruct (main_after_preamble args w w1 current_mac recorded
              Hread Hcur Hrec) as (Hshow & Hrestore & Hset & Hrand).
  cbv zeta in Hshow, Hrestore, Hset, Hrand.
  destruct (show args); [by rewrite Hshow|].
  destruct (restore args).
  { rewrite Hrestore by done. cbn [snd].
    by rewrite set_mac_address_record. }
  destruct (truthy (of_option (mac args))).
  { rewrite Hset by done. cbn [snd]. by rewrite set_mac_address_record. }
  match goal with
  | |- _ = config_file ?w2 =>
      destruct (generate_random_mac_frame w2)
        as (g & w3 & Hgen & _ & (_ & Hcfg & _) & _)
  end.
  rewrite (Hrand eq_refl eq_refl eq_refl _ _ Hgen). cbn [snd].
  by rewrite set_mac_address_record.
Qed.

(** X12. When the command cannot be started for the initial read, [main]
    does not report it: the exception leaves [main], nothing is printed and
    the record file is not touched.  (Inside the writer the same failure is
    caught.) *)
Theorem main_command_missing (args : Args) (w : world) :
  starts (show_command (interface args)) w = false →
  main args w
    = (Raise SpawnError, after_exec (show_command (interface args)) w).
Proof.
  unfold starts. intros Hstart.
  unfold main. unfold bind at 1. rewrite get_current_mac_eq. cbv zeta.
  by destruct (fst (exec _ (nic w))).
Qed.

(** X13. No run of [main], whatever the flags and whatever the commands do,
    changes or removes an entry that the record holds: each interface keeps
    the value recorded for it. *)
Theorem main_keeps_entries (args : Args) (w : world) (j : pystr)
    (v : pyval) :
  stored (config_file w) j = Some v →
  stored (config_file (snd (main args w))) j = Some v.
Proof.
  intros Hj.
  pose proof (get_current_mac_frame (interface args) w) as (Hcfg & _).
  cbv zeta in Hcfg.
  destruct (get_current_mac (interface args) w) as [[cur|e] w1] eqn:Hread;
    cbn [snd] in Hcfg.
  2:{ unfold main. unfold bind at 1. rewrite Hread. cbn [snd].
      by rewrite Hcfg. }
  destruct (truthy cur) eqn:Hcur.
  2:{ unfold main. unfold bind at 1. rewrite Hread, Hcur. cbn.
      by rewrite Hcfg. }
  destruct (config_file w) as [| |c] eqn:Hfile; try discriminate Hj.
  destruct c as [| | | | | |d]; try discriminate Hj. cbn [stored] in Hj.
  rewrite (main_record_after_preamble args w w1 cur
             (default PyNone (d !! interface args)) Hread Hcur)
    by (by rewrite get_original_mac_eq, Hcfg).
  destruct (truthy (default PyNone (d !! interface args))); cbv iota;
    [by rewrite Hcfg|].
  rewrite save_original_mac_eq, Hcfg.
  destruct (bool_decide (is_Some (d !! interface args))) eqn:Hin;
    cbn [snd wrote config_file stored]; [done|].
  apply bool_decide_eq_false in Hin.
  rewrite lookup_insert_ne; [done|].
  intros E. apply Hin. rewrite E. eauto.
Qed.

(** X14. On first use (no record file, or a record without an entry for
    the interface) every run of [main] whose initial read gives an address
    leaves that address recorded for the interface, whatever the flags and
    whether or not the change that follows succeeds. *)
Theorem main_records_first (args : Args) (w w1 : world) (current_mac : pyval) :
  no_entry (config_file w) (interface args) = true →
  get_current_mac (interface args) w = (Return current_mac, w1) →
  truthy current_mac = true →
  stored (config_file (snd (main args w))) (interface args)
    = Some current_mac.
Proof.
  intros Hfresh Hread Hcur.
  pose proof (get_current_mac_frame (interface args) w) as (Hcfg & _).
  rewrite Hread in Hcfg. cbn [snd] in Hcfg.
  assert (get_original_mac (interface args) w1 = (Return PyNone, w1))
    as Hget.
  { rewrite get_original_mac_eq, Hcfg.
    destruct (config_file w) as [| |c]; try done.
    destruct c as [| | | | | |d]; try done.
    cbn [no_entry] in Hfresh. apply bool_decide_eq_true in Hfresh.
    by rewrite Hfresh. }
  rewrite (main_record_after_preamble args w w1 current_mac PyNone
             Hread Hcur) by (by rewrite Hget).
  cbn [truthy]. rewrite save_original_mac_eq, Hcfg.
  destruct (config_file w) as [| |c]; try done.
  - cbn [snd wrote config_file stored]. by rewrite lookup_insert_eq.
  - destruct c as [| | | | | |d]; try done.
    cbn [no_entry] in Hfresh. apply bool_decide_eq_true in Hfresh.
    rewrite bool_decide_eq_false_2 by (rewrite Hfresh; by intros [? ?]).
    cbn [snd wrote config_file stored]. by rewrite lookup_insert_eq.
Qed.

(** X15. With [--restore] and without [--show], once the initial read gave
    an address and the record was looked up, [main] prints that it restores
    and calls the writer once, with the recorded value when there is a truthy
    one and with the address just read otherwise; [--mac] plays no part and
    the writer's result is dropped. *)
Theorem main_restore (args : Args) (w w1 : world)
    (current_mac recorded : pyval) :
  show args = false → restore args = true →
  get_current_mac (interface args) w = (Return current_mac, w1) →
  truthy current_mac = true →
  fst (get_original_mac (interface args) w1) = Return recorded →
  main args w =
    (Return tt,
     snd (set_mac_address (interface args)
            (if truthy recorded then recorded else current_mac)
            (printed (Restoring (interface args))
               (if truthy recorded then w1
                else snd (save_original_mac (interface args)
                            current_mac w1))))).
Proof.
  intros Hshow Hrestore Hread Hcur Hrec.
  destruct (main_after_preamble args w w1 current_mac recorded
              Hread Hcur Hrec) as (_ & Hgoal & _).
  by apply Hgoal.
Qed.

(** X16. Without [--show] and [--restore], a non-empty [--mac] is passed to
    the writer as it is, with no check of its form. *)
Theorem main_explicit_mac (args : Args) (w w1 : world)
    (current_mac recorded : pyval) (m : pystr) :
  show args = false → restore args = false →
  mac args = Some m → m ≠ [] →
  get_current_mac (interface args) w = (Return current_mac, w1) →
  truthy current_mac = true →
  fst (get_original_mac (interface args) w1) = Return recorded →
  main args w =
    (Return tt,
     snd (set_mac_address (interface args) (PyStr m)
            (if truthy recorded then w1
             else snd (save_original_mac (interface args)
                         current_mac w1)))).
Proof.
  intros Hshow Hrestore Hmac Hm Hread Hcur Hrec.
  destruct (main_after_preamble args w w1 current_mac recorded
              Hread Hcur Hrec) as (_ & _ & Hset & _).
  cbv zeta in Hset. rewrite Hmac in Hset. apply Hset; try done.
  cbn. by rewrite bool_decide_eq_false_2.
Qed.

(** X17. Without [--show] and [--restore], a missing [--mac] and an empty
    one ([--mac ""]) are the same: the writer is called with a freshly
    generated address, which is canonical. *)
Theorem main_random_mac (args : Args) (w w1 : world)
    (current_mac recorded : pyval) :
  show args = false → restore args = false →
  mac args = None ∨ mac args = Some [] →
  get_current_mac (interface args) w = (Return current_mac, w1) →
  truthy current_mac = true →
  fst (get_original_mac (interface args) w1) = Return recorded →
  let w2 := if truthy recorded then w1
            else snd (save_original_mac (interface args) current_mac w1) in
  ∃ g w3,
    generate_random_mac w2 = (Return (PyStr g), w3) ∧ canonical g ∧
    main args w
      = (Return tt, snd (set_mac_address (interface args) (PyStr g) w3)).
Proof.
  intros Hshow Hrestore Hmac Hread Hcur Hrec w2.
  destruct (main_after_preamble args w w1 current_mac recorded
              Hread Hcur Hrec) as (_ & _ & _ & Hrand).
  cbv zeta in Hrand. fold w2 in Hrand.
  destruct (generate_random_mac_frame w2) as (g & w3 & Hgen & Hcan & _).
  exists g, w3. split; [done|]. split; [done|].
  apply Hrand; try done. by destruct Hmac as [-> | ->].
Qed.

End Further.

(** ** Rendering loses nothing *)

Lemma format_02x_distinct :
  forallb (λ x, forallb (λ y, implb (bool_decide (format_02x x = format_02x y))
                                    (x =? y)) (seqZ 0 256))
          (seqZ 0 256) = true.
Proof. vm_compute. reflexivity. Qed.

Lemma format_02x_inj (b1 b2 : Z) :
  0 ≤ b1 ≤ 255 → 0 ≤ b2 ≤ 255 → format_02x b1 = format_02x b2 → b1 = b2.
Proof.
  intros H1 H2 Heq.
  pose proof (byte_cases _ format_02x_distinct b1 H1) as Hall.
  cbv beta in Hall. rewrite forallb_forall in Hall.
  specialize (Hall b2). rewrite bool_decide_eq_true_2 in Hall by done.
  apply Z.eqb_eq, Hall, list_elem_of_In, elem_of_seqZ. lia.
Qed.

(** X18. Two sequences of bytes with the same rendering are the same
    sequence: the colon-hex string determines every byte. *)
Theorem format_mac_inj (mac1 mac2 : list Z) :
  Forall (λ b, 0 ≤ b ≤ 255) mac1 → Forall (λ b, 0 ≤ b ≤ 255) mac2 →
  format_mac mac1 = format_mac mac2 → mac1 = mac2.
Proof.
  unfold format_mac. intros H1. revert mac2.
  induction H1 as [|b1 l1 Hb1 Hl1 IH]; intros mac2 H2 Heq.
  - destruct H2 as [|b2 l2 Hb2 Hl2]; [done|].
    apply format_02x_byte in Hb2. rewrite fmap_cons in Heq.
    destruct (format_02x b2) as [|x [|y [|z g]]]; try discriminate Hb2.
    by destruct l2.
  - destruct H2 as [|b2 l2 Hb2 Hl2].
    + apply format_02x_byte in Hb1. rewrite fmap_cons in Heq.
      destruct (format_02x b1) as [|x [|y [|z g]]]; try discriminate Hb1.
      by destruct l1.
    + pose proof (format_02x_inj b1 b2 Hb1 Hb2) as Hinj.
      pose proof (format_02x_byte b1 Hb1) as Hp1.
      pose proof (format_02x_byte b2 Hb2) as Hp2.
      rewrite !fmap_cons in Heq.
      destruct (format_02x b1) as [|x1 [|y1 [|z1 g1]]]; try discriminate Hp1.
      destruct (format_02x b2) as [|x2 [|y2 [|z2 g2]]]; try discriminate Hp2.
      destruct l1 as [|c1 l1], l2 as [|c2 l2].
      * cbn in Heq. f_equal. by apply Hinj.
      * cbn in Heq. discriminate Heq.
      * cbn in Heq. discriminate Heq.
      * rewrite !fmap_cons in Heq. cbn [join app] in Heq.
        injection Heq as -> -> Hrest.
        f_equal; [by apply Hinj|]. apply IH; [done|exact Hrest].
Qed.

(** ** The further properties on concrete runs *)

Lemma get_current_mac_located_witness :
  ∃ pre ws rest,
    fst (exec (show_command eth0) (nic (fake_world plain_nic Absent)))
      = Exited 0 (Utf8 (pre ++ lit "ether" ++ ws ++ factory_mac ++ rest)) ∧
    ws ≠ [] ∧ forallb is_space ws = true ∧
    snd (get_current_mac (platform:=fake) eth0 (fake_world plain_nic Absent))
      = after_exec (show_command eth0) (fake_world plain_nic Absent).
Proof.
  apply (get_current_mac_located (platform:=fake) eth0
           (fake_world plain_nic Absent)).
  vm_compute. reflexivity.
Defined.

Lemma get_current_mac_finds_witness :
  let w := @World echo (lit "ether  " ++ upper_mac ++ lit " up") Absent
             (λ _, 0) 0%nat [] [] in
  (∃ g', get_current_mac eth0 w
           = (Return (PyStr g'), after_exec (show_command eth0) w)) ∧
  (@nil N = [] →
   get_current_mac eth0 w
     = (Return (PyStr upper_mac), after_exec (show_command eth0) w)).
Proof.
  apply (get_current_mac_finds (platform:=echo) eth0
           (@World echo (lit "ether  " ++ upper_mac ++ lit " up") Absent
              (λ _, 0) 0%nat [] [])
           [] (lit "  ") upper_mac (lit " up"));
    [vm_compute; reflexivity | discriminate | reflexivity | reflexivity
    | reflexivity].
Defined.

Lemma set_mac_address_commands_witness :
  invoked (snd (set_mac_address (platform:=fake) eth0 (PyStr chosen_mac)
                  (fake_world plain_nic Absent)))
    = invoked (fake_world plain_nic Absent)
      ++ [down_command eth0; hw_command eth0 chosen_mac; up_command eth0;
          show_command eth0].
Proof.
  apply (set_mac_address_commands (platform:=fake) eth0 chosen_mac
           (fake_world plain_nic Absent));
    vm_compute; reflexivity.
Defined.

Lemma set_mac_address_not_str_stops_witness :
  let r := set_mac_address (platform:=fake) eth0 (PyInt 5)
             (fake_world plain_nic Absent) in
  fst r = Return false ∧
  invoked (snd r)
    = invoked (fake_world plain_nic Absent) ++ [down_command eth0] ∧
  nic (snd r)
    = snd (exec (down_command eth0) (nic (fake_world plain_nic Absent))) ∧
  console (snd r)
    = console (fake_world plain_nic Absent)
      ++ [Changing eth0 (PyInt 5); ErrorChanging TypeError].
Proof.
  apply (set_mac_address_not_str_stops (platform:=fake) eth0 (PyInt 5)
           (fake_world plain_nic Absent));
    [discriminate | vm_compute; reflexivity].
Defined.

Lemma save_original_mac_raises_witness :
  let w := fake_world plain_nic (Document (PyList [PyStr wlan0])) in
  fst (save_original_mac (platform:=fake) eth0 (PyStr factory_mac) w)
    = Raise TypeError ∧
  snd (save_original_mac (platform:=fake) eth0 (PyStr factory_mac) w) = w ∧
  fst (save_original_mac (platform:=fake) wlan0 (PyStr factory_mac) w)
    = Return tt.
Proof.
  destruct (save_original_mac_raises (platform:=fake) eth0
              (PyStr factory_mac)
              (fake_world plain_nic (Document (PyList [PyStr wlan0])))
              TypeError) as [Hiff Hsame].
  assert (fst (save_original_mac (platform:=fake) eth0 (PyStr factory_mac)
                 (fake_world plain_nic (Document (PyList [PyStr wlan0]))))
          = Raise TypeError) as Hraise.
  { apply Hiff. right. eexists. split; [reflexivity|].
    split; [reflexivity|]. vm_compute. reflexivity. }
  split; [exact Hraise|]. split; [exact (Hsame Hraise)|].
  vm_compute. reflexivity.
Defined.

Lemma save_original_mac_again_witness :
  let w1 := snd (save_original_mac (platform:=fake) eth0 (PyStr factory_mac)
                   (fake_world plain_nic Absent)) in
  save_original_mac eth0 (PyStr chosen_mac) w1 = (Return tt, w1).
Proof.
  apply (save_original_mac_again (platform:=fake) eth0 (PyStr factory_mac)
           (PyStr chosen_mac) (fake_world plain_nic Absent)).
  vm_compute. reflexivity.
Defined.

Lemma get_original_mac_not_object_witness :
  let w := fake_world plain_nic (Document (PyList [])) in
  get_original_mac (platform:=fake) eth0 w = (Raise AttributeError, w) ∧
  main set_args w
    = (Raise AttributeError, snd (get_current_mac eth0 w)).
Proof.
  destruct (get_original_mac_not_object (platform:=fake)
              (fake_world plain_nic (Document (PyList []))) (PyList [])
              eq_refl ltac:(discriminate)) as [Hget Hmain].
  split; [apply Hget|].
  apply (Hmain set_args (PyStr factory_mac)
           (snd (get_current_mac eth0
                   (fake_world plain_nic (Document (PyList []))))));
    vm_compute; reflexivity.
Defined.

Lemma main_command_missing_witness :
  let w := @World no_command tt Absent (λ _, 0) 0%nat [] [] in
  main set_args w = (Raise SpawnError, after_exec (show_command eth0) w).
Proof.
  apply (main_command_missing (platform:=no_command) set_args
           (@World no_command tt Absent (λ _, 0) 0%nat [] [])).
  reflexivity.
Defined.

Lemma main_keeps_entries_witness :
  stored (config_file (snd (main (platform:=fake) set_args recorded_world)))
         eth0 = Some (PyStr factory_mac).
Proof.
  apply (main_keeps_entries (platform:=fake) set_args recorded_world eth0).
  vm_compute. reflexivity.
Defined.

Lemma main_records_first_witness :
  stored (config_file (snd (main (platform:=fake) set_args
                              (fake_world plain_nic Absent))))
         eth0 = Some (PyStr factory_mac).
Proof.
  apply (main_records_first (platform:=fake) set_args
           (fake_world plain_nic Absent)
           (snd (get_current_mac eth0 (fake_world plain_nic Absent))));
    [reflexivity | vm_compute; reflexivity | reflexivity].
Defined.

Lemma main_restore_witness :
  let w := fake_world (FakeNic chosen_mac true true true)
             (Document (PyDict (<[eth0 := PyStr factory_mac]> ∅))) in
  let w1 := snd (get_current_mac (platform:=fake) eth0 w) in
  main restore_args w =
    (Return tt,
     snd (set_mac_address eth0 (PyStr factory_mac)
            (printed (Restoring eth0) w1))) ∧
  address (nic (snd (main restore_args w))) = factory_mac.
Proof.
  split; [|by vm_compute].
  apply (main_restore (platform:=fake) restore_args
           (fake_world (FakeNic chosen_mac true true true)
              (Document (PyDict (<[eth0 := PyStr factory_mac]> ∅))))
           (snd (get_current_mac eth0
                   (fake_world (FakeNic chosen_mac true true true)
                      (Document (PyDict (<[eth0 := PyStr factory_mac]> ∅))))))
           (PyStr chosen_mac) (PyStr factory_mac));
    vm_compute; reflexivity.
Defined.

Lemma main_explicit_mac_witness :
  main (platform:=fake) set_args recorded_world =
    (Return tt,
     snd (set_mac_address eth0 (PyStr chosen_mac)
            (snd (get_current_mac eth0 recorded_world)))).
Proof.
  apply (main_explicit_mac (platform:=fake) set_args recorded_world
           (snd (get_current_mac eth0 recorded_world))
           (PyStr factory_mac) (PyStr factory_mac) chosen_mac);
    try (vm_compute; reflexivity).
  discriminate.
Defined.

Lemma main_random_mac_witness :
  let w1 := snd (get_current_mac (platform:=fake) eth0 recorded_world) in
  ∃ g w3,
    generate_random_mac w1 = (Return (PyStr g), w3) ∧ canonical g ∧
    main random_args recorded_world
      = (Return tt, snd (set_mac_address eth0 (PyStr g) w3)).
Proof.
  apply (main_random_mac (platform:=fake) random_args recorded_world
           (snd (get_current_mac eth0 recorded_world))
           (PyStr factory_mac) (PyStr factory_mac));
    try (vm_compute; reflexivity).
  by right.
Defined.

Lemma format_mac_inj_witness : [2; 170; 0; 255; 16; 9] = [2; 170; 0; 255; 16; 9].
Proof.
  apply (format_mac_inj [2; 170; 0; 255; 16; 9] [2; 170; 0; 255; 16; 9]);
    [repeat constructor; lia | repeat constructor; lia | reflexivity].
Defined.
